(** * Network support agent: discovery, correlation, remediation tools

    A shallow embedding of the tool functions of the agent
    ([detectAgentScope], [queryVpcFlowLogs], [runConnectivityTest],
    [manageFirewallRule]) and of the agent wiring ([runAgent] and the
    agent tree), with the properties the design document states
    about them.

    Conventions.  A JavaScript string is a [string] whose characters are
    its code units (all below 256).  An awaited client call is
    an [Outcome]: it resolves with a value or rejects with an error, of
    which only the [message] is ever read by the code.  Mutable objects
    shared by a function body (the visited set, the edge list, the
    result arrays) are fields of an explicit state record threaded
    through the steps in source order. *)

From Stdlib Require Import ZArith Ascii String List Lia.
From stdpp Require Import base decidable option list strings gmap pretty.

Local Open Scope string_scope.
Local Open Scope Z_scope.

Set Warnings "-register-all".

(** ** JavaScript values and helpers *)

Module Js.

(** Result of awaiting a promise returned by a client library. *)
Inductive Outcome (A : Type) : Type :=
| Resolved (value : A)
| Rejected (message : string).
Arguments Resolved {A} value.
Arguments Rejected {A} message.

(** [${x}] in a template literal, for a property that may be absent. *)
Definition show (x : option string) : string :=
  match x with
  | Some s => s
  | None => "undefined"
  end.

(** Truthiness of an optional string property: present and non-empty. *)
Definition truthy_str (x : option string) : bool :=
  match x with
  | Some s => negb (String.eqb s EmptyString)
  | None => false
  end.

(** [a || b] on optional string properties. *)
Definition or_else (a b : option string) : option string :=
  if truthy_str a then a else b.

(** *** Strings: [split(',')], [trim()], [includes], [join] *)

Fixpoint split_comma (s : string) : list string :=
  match s with
  | EmptyString => [EmptyString]
  | String c r =>
      if Ascii.eqb c "," then EmptyString :: split_comma r
      else match split_comma r with
           | w :: ws => String c w :: ws
           | [] => [String c EmptyString]
           end
  end.

(** White space and line terminators removed by [trim]: TAB, LF, VT, FF,
    CR, SP and NBSP. *)
Definition is_white_space (c : ascii) : bool :=
  let n := N_of_ascii c in
  (N.eqb n 9 || N.eqb n 10 || N.eqb n 11 || N.eqb n 12 || N.eqb n 13
   || N.eqb n 32 || N.eqb n 160)%bool.

Fixpoint trimStart (s : string) : string :=
  match s with
  | EmptyString => EmptyString
  | String c r => if is_white_space c then trimStart r else s
  end.

Fixpoint trimEnd (s : string) : string :=
  match s with
  | EmptyString => EmptyString
  | String c r =>
      match trimEnd r with
      | EmptyString => if is_white_space c then EmptyString
                       else String c EmptyString
      | r' => String c r'
      end
  end.

Definition trim (s : string) : string := trimEnd (trimStart s).

Definition head_char (s : string) : option ascii :=
  match s with
  | EmptyString => None
  | String c _ => Some c
  end.

Fixpoint last_char (s : string) : option ascii :=
  match s with
  | EmptyString => None
  | String c EmptyString => Some c
  | String _ r => last_char r
  end.

Fixpoint includes_char (c : ascii) (s : string) : bool :=
  match s with
  | EmptyString => false
  | String d r => (Ascii.eqb c d || includes_char c r)%bool
  end.

Fixpoint join (sep : string) (l : list string) : string :=
  match l with
  | [] => EmptyString
  | [x] => x
  | x :: r => x +:+ sep +:+ join sep r
  end.

(** *** [Set<string>]: membership with insertion order *)

Definition set_has (x : string) (s : list string) : bool :=
  bool_decide (x ∈ s).

Definition set_add (x : string) (s : list string) : list string :=
  if set_has x s then s else s ++ [x].

(** [new Set(l)] followed by iteration or [Array.from]. *)
Definition set_from (l : list string) : list string :=
  foldl (fun s x => set_add x s) [] l.

(** *** JSON values and [JSON.stringify] *)

(** Keys of an object are listed in the object's own enumeration order.
    Numbers are the integer-valued ones. *)
Inductive JValue : Type :=
| JNull
| JBool (b : bool)
| JNum (n : Z)
| JStr (s : string)
| JArr (items : list JValue)
| JObj (fields : list (string * JValue)).

Definition truthy (v : JValue) : bool :=
  match v with
  | JNull => false
  | JBool b => b
  | JNum n => negb (Z.eqb n 0)
  | JStr s => negb (String.eqb s EmptyString)
  | JArr _ | JObj _ => true
  end.

Fixpoint assoc (k : string) (fields : list (string * JValue)) : option JValue :=
  match fields with
  | [] => None
  | (k', v) :: r => if String.eqb k k' then Some v else assoc k r
  end.

(** [v.k] for a value [v] that is not [null]: own property of an object,
    [undefined] on arrays and primitives (for a key that is not an index
    or a built-in). *)
Definition prop (v : JValue) (k : string) : option JValue :=
  match v with
  | JObj fields => assoc k fields
  | _ => None
  end.

(** [typeof u === 'string'] as a filter. *)
Definition as_string (u : option JValue) : option string :=
  match u with
  | Some (JStr s) => Some s
  | _ => None
  end.

Definition dquote : string := String (ascii_of_N 34) EmptyString.

Definition hex_digit (n : N) : ascii :=
  if (n <? 10)%N then ascii_of_N (48 + n) else ascii_of_N (87 + n).

(** One code unit inside a JSON string literal. *)
Definition escape_char (c : ascii) : string :=
  let n := N_of_ascii c in
  if N.eqb n 34 then "\" +:+ dquote
  else if N.eqb n 92 then "\\"
  else if N.eqb n 8 then "\b"
  else if N.eqb n 12 then "\f"
  else if N.eqb n 10 then "\n"
  else if N.eqb n 13 then "\r"
  else if N.eqb n 9 then "\t"
  else if (n <? 32)%N then
    "\u00" +:+ String (hex_digit (n / 16)) (String (hex_digit (n mod 16)) EmptyString)
  else String c EmptyString.

Fixpoint escape (s : string) : string :=
  match s with
  | EmptyString => EmptyString
  | String c r => escape_char c +:+ escape r
  end.

Definition quote (s : string) : string := dquote +:+ escape s +:+ dquote.

Fixpoint stringify (v : JValue) : string :=
  match v with
  | JNull => "null"
  | JBool true => "true"
  | JBool false => "false"
  | JNum n => pretty n
  | JStr s => quote s
  | JArr items => "[" +:+ join "," (List.map stringify items) +:+ "]"
  | JObj fields =>
      "{" +:+ join "," (List.map (fun kv => quote (fst kv) +:+ ":" +:+ stringify (snd kv)) fields) +:+ "}"
  end.

(** [String(v)], the conversion a template literal applies: an array is
    its elements joined by commas, a [null] element giving the empty
    string, and an object is [[object Object]]. *)
Fixpoint to_text (v : JValue) : string :=
  match v with
  | JNull => "null"
  | JBool true => "true"
  | JBool false => "false"
  | JNum n => pretty n
  | JStr s => s
  | JArr items =>
      join "," (List.map (fun x => match x with
                                   | JNull => EmptyString
                                   | _ => to_text x
                                   end) items)
  | JObj _ => "[object Object]"
  end.

(** *** The three project-reference patterns

    Each pattern is the literal [projects/], a non-empty run of a
    negated character class captured as group 1, and a literal tail.
    The class excludes [/], so the run taken at a start position is the
    longest one and the tail has to follow it. *)

Fixpoint strip_prefix (p s : string) : option string :=
  match p, s with
  | EmptyString, _ => Some s
  | String a p', String b s' => if Ascii.eqb a b then strip_prefix p' s' else None
  | String _ _, EmptyString => None
  end.

Fixpoint take_run (excl : ascii -> bool) (s : string) : string * string :=
  match s with
  | EmptyString => (EmptyString, EmptyString)
  | String c r =>
      if excl c then (EmptyString, s)
      else let '(run, rest) := take_run excl r in (String c run, rest)
  end.

(** A match starting exactly at the head of [s]: the captured group and
    the length of the whole match. *)
Definition match_here (excl : ascii -> bool) (tail s : string) : option (string * nat) :=
  match strip_prefix "projects/" s with
  | None => None
  | Some r =>
      let '(run, rest) := take_run excl r in
      match run with
      | EmptyString => None
      | _ =>
          match strip_prefix tail rest with
          | Some _ => Some (run, (9 + String.length run + String.length tail)%nat)
          | None => None
          end
      end
  end.

(** [s.match(re)] without the [g] flag: group 1 of the leftmost match. *)
Fixpoint first_match (excl : ascii -> bool) (tail s : string) : option string :=
  match match_here excl tail s with
  | Some (g, _) => Some g
  | None =>
      match s with
      | EmptyString => None
      | String _ r => first_match excl tail r
      end
  end.

(** [s.matchAll(re)] with the [g] flag: group 1 of every match, left to
    right, each search resuming where the previous match ended. *)
Fixpoint match_all_from (excl : ascii -> bool) (tail : string) (skip : nat) (s : string) : list string :=
  match s with
  | EmptyString => []
  | String _ r =>
      match skip with
      | S k => match_all_from excl tail k r
      | O =>
          match match_here excl tail s with
          | Some (g, len) => g :: match_all_from excl tail (len - 1) r
          | None => match_all_from excl tail 0 r
          end
      end
  end.

Definition is_slash (c : ascii) : bool := Ascii.eqb c "/".
Definition is_slash_or_quote (c : ascii) : bool :=
  (Ascii.eqb c "/" || N.eqb (N_of_ascii c) 34)%bool.

(** [/projects\/([^\/]+)\//] *)
Definition match_project (url : string) : option string :=
  first_match is_slash "/" url.

(** [/projects\/([^\/Q]+)\//g], where Q stands for the double quote *)
Definition matchAll_project (text : string) : list string :=
  match_all_from is_slash_or_quote "/" 0 text.

(** [/projects\/([^\/Q]+)\/global\/networks/g], Q the double quote *)
Definition matchAll_project_network (text : string) : list string :=
  match_all_from is_slash_or_quote "/global/networks" 0 text.

End Js.

(** ** Scope discovery: [detectAgentScope] (tools/identify-network-projects.ts) *)

Module Discovery.
Import Js.

(** The [rootProjects] argument as the function may receive it. *)
Inductive RootInput : Type :=
| InArray (projects : list string)
| InString (text : string)
| InOther.

(** An element of [projectGraph]: a link found, or the error entry
    pushed by the catch block of a project scan. *)
Inductive GraphEntry : Type :=
| Link (source target reason : string)
| ScanError (source error : string).

Definition entry_target (e : GraphEntry) : option string :=
  match e with
  | Link _ t _ => Some t
  | ScanError _ _ => None
  end.

Definition entry_source (e : GraphEntry) : string :=
  match e with
  | Link s _ _ => s
  | ScanError s _ => s
  end.

(** Requests sent to the inventory clients. *)
Inductive ApiCall : Type :=
| GetXpnHost (project : string)
| ListUsable (project : string)
| SearchAllResources (scope : string) (assetTypes : list string) (pageSize : Z).

(** Responses of the inventory for one project. *)
Record XpnProject : Type := { xpn_name : option string }.

Record UsableSubnet : Type := {
  subnetwork : option string;
  network : option string
}.

Record Resource : Type := {
  assetType : option string;
  displayName : option string;
  additionalAttributes : option JValue
}.

Record ProjectData : Type := {
  getXpnHost : Outcome (option XpnProject);
  (** subnets yielded by the async iterator, then the error that ends
      the iteration if there is one *)
  listUsableAsync : list UsableSubnet * option string;
  searchResources : Outcome (list Resource);
  searchInstances : Outcome (list Resource)
}.

Definition Inventory : Type := string -> ProjectData.

(** The objects the loop body mutates, with two logs: [scanning] lists
    the projects announced by the loop header, [calls] the client
    requests.  [detected] is ghost state: every triple that reaches a
    [visitedProjects.has] test, whether or not it is then pushed. *)
Record ScanState : Type := {
  visitedProjects : list string;
  projectGraph : list GraphEntry;
  scanning : list string;
  calls : list ApiCall;
  detected : list GraphEntry
}.

Definition logCall (c : ApiCall) (st : ScanState) : ScanState :=
  {| visitedProjects := visitedProjects st;
     projectGraph := projectGraph st;
     scanning := scanning st;
     calls := calls st ++ [c];
     detected := detected st |}.

Definition logScanning (projectId : string) (st : ScanState) : ScanState :=
  {| visitedProjects := visitedProjects st;
     projectGraph := projectGraph st;
     scanning := scanning st ++ [projectId];
     calls := calls st;
     detected := detected st |}.

(** [if (!visitedProjects.has(d)) { visitedProjects.add(d); projectGraph.push({...}) }] *)
Definition addIfUnvisited (projectId detectedProject reason : string) (st : ScanState) : ScanState :=
  let st' :=
    {| visitedProjects := visitedProjects st;
       projectGraph := projectGraph st;
       scanning := scanning st;
       calls := calls st;
       detected := detected st ++ [Link projectId detectedProject reason] |} in
  if negb (set_has detectedProject (visitedProjects st)) then
    {| visitedProjects := set_add detectedProject (visitedProjects st);
       projectGraph := projectGraph st ++ [Link projectId detectedProject reason];
       scanning := scanning st;
       calls := calls st;
       detected := detected st' |}
  else st'.

(** The block repeated at the XPN host, usable subnet, forwarding rule,
    peering and interconnect sites:
    [if (detectedProject !== projectId) { if (!visitedProjects.has ...) }]. *)
Definition addLink (projectId detectedProject reason : string) (st : ScanState) : ScanState :=
  if negb (String.eqb detectedProject projectId) then
    addIfUnvisited projectId detectedProject reason st
  else st.

(** The instance site adds [&& detectedProject !== 'google-cloud-clients']. *)
Definition addLinkNic (projectId detectedProject reason : string) (st : ScanState) : ScanState :=
  if (negb (String.eqb detectedProject projectId)
      && negb (String.eqb detectedProject "google-cloud-clients"))%bool then
    addIfUnvisited projectId detectedProject reason st
  else st.

(** [projectGraph.push({ source: projectId, error: e.message })] *)
Definition pushError (projectId message : string) (st : ScanState) : ScanState :=
  {| visitedProjects := visitedProjects st;
     projectGraph := projectGraph st ++ [ScanError projectId message];
     scanning := scanning st;
     calls := calls st;
     detected := detected st |}.

(** A [for ... of] loop whose body may throw: the first throw leaves
    the loop with the state reached so far. *)
Fixpoint forOf {A : Type} (body : A -> ScanState -> ScanState * option string)
    (xs : list A) (st : ScanState) : ScanState * option string :=
  match xs with
  | [] => (st, None)
  | x :: r =>
      match body x st with
      | (st', None) => forOf body r st'
      | (st', Some m) => (st', Some m)
      end
  end.

(** Step 0: [getXpnHost]; a rejection is logged and ignored. *)
Definition stepXpnHost (d : ProjectData) (projectId : string) (st : ScanState) : ScanState :=
  let st := logCall (GetXpnHost projectId) st in
  match getXpnHost d with
  | Resolved (Some xpnHost) =>
      if truthy_str (xpn_name xpnHost) then
        let hostProject := show (xpn_name xpnHost) in
        addLink projectId hostProject
          ("Project is a Service Project attached to Host Project " +:+ hostProject) st
      else st
  | Resolved None => st
  | Rejected _ => st
  end.

Definition usableSubnetBody (projectId : string) (st : ScanState) (subnet : UsableSubnet) : ScanState :=
  let rawUrl := or_else (subnetwork subnet) (network subnet) in
  if truthy_str rawUrl then
    match match_project (show rawUrl) with
    | Some detectedProject =>
        addLink projectId detectedProject
          ("Project has usable subnet " +:+ show rawUrl +:+ " from Host Project " +:+ detectedProject) st
    | None => st
    end
  else st.

(** Step 1: [listUsableAsync]; the subnets yielded before a failure are
    processed, the failure itself is logged and ignored. *)
Definition stepListUsable (d : ProjectData) (projectId : string) (st : ScanState) : ScanState :=
  let st := logCall (ListUsable projectId) st in
  foldl (usableSubnetBody projectId) st (fst (listUsableAsync d)).

Definition networkAssetTypes : list string :=
  [ "compute.googleapis.com/Subnetwork";
    "compute.googleapis.com/Network";
    "compute.googleapis.com/InterconnectAttachment";
    "compute.googleapis.com/ForwardingRule";
    "compute.googleapis.com/BackendService" ].

Definition has_type (t : string) (r : Resource) : bool :=
  match assetType r with
  | Some t' => String.eqb t' t
  | None => false
  end.

(** [res.additionalAttributes || {}] *)
Definition attrs_or_empty (r : Resource) : JValue :=
  match additionalAttributes r with
  | Some v => if truthy v then v else JObj []
  | None => JObj []
  end.

(** Body of the loop over [urisToCheck] of a forwarding rule. *)
Definition forwardingRuleUri (projectId : string) (res : Resource)
    (st : ScanState) (uri : string) : ScanState :=
  match match_project uri with
  | Some detectedProject =>
      addLink projectId detectedProject
        ("ForwardingRule " +:+ show (displayName res) +:+ " uses network/subnet in "
         +:+ detectedProject) st
  | None => st
  end.

(** First resource loop: only forwarding rules do anything. *)
Definition resourceBody (projectId : string) (st : ScanState) (res : Resource) : ScanState :=
  if has_type "compute.googleapis.com/Subnetwork" res then st
  else if has_type "compute.googleapis.com/ForwardingRule" res then
    let attrs := attrs_or_empty res in
    let urisToCheck := omap as_string [prop attrs "subnetwork"; prop attrs "network"] in
    foldl (forwardingRuleUri projectId res) st urisToCheck
  else st.

(** Body of the loop over [urisToCheck] of a network interface. *)
Definition nicUri (projectId : string) (inst : Resource)
    (st : ScanState) (uri : string) : ScanState :=
  match match_project uri with
  | Some detectedProject =>
      addLinkNic projectId detectedProject
        ("Instance " +:+ show (displayName inst) +:+ " uses network/subnet in "
         +:+ detectedProject +:+ " (Shared VPC Host)") st
  | None => st
  end.

(** One network interface: reading a property of [null] throws. *)
Definition nicBody (projectId : string) (inst : Resource) (nic : JValue) (st : ScanState)
    : ScanState * option string :=
  match nic with
  | JNull => (st, Some "Cannot read properties of null (reading 'network')")
  | _ =>
      let urisToCheck := omap as_string [prop nic "network"; prop nic "subnetwork"] in
      (foldl (nicUri projectId inst) st urisToCheck, None)
  end.

Definition instanceBody (projectId : string) (inst : Resource) (st : ScanState)
    : ScanState * option string :=
  match additionalAttributes inst with
  | Some rawAttrs =>
      if truthy rawAttrs then
        match prop rawAttrs "networkInterfaces" with
        | Some ni =>
            if truthy ni then
              let nics := match ni with JArr items => items | _ => [ni] end in
              forOf (nicBody projectId inst) nics st
            else (st, None)
        | None => (st, None)
        end
      else (st, None)
  | None => (st, None)
  end.

Definition networkBody (projectId : string) (st : ScanState) (net : Resource) : ScanState :=
  match additionalAttributes net with
  | Some attrs =>
      if truthy attrs then
        foldl (fun st detectedProject =>
                 addLink projectId detectedProject
                   ("Network " +:+ show (displayName net) +:+ " has peering/link to " +:+ detectedProject) st)
              st (matchAll_project_network (stringify attrs))
      else st
  | None => st
  end.

Definition interconnectBody (projectId : string) (st : ScanState) (ic : Resource) : ScanState :=
  foldl (fun st detectedProject =>
           addLink projectId detectedProject
             ("Interconnect Attachment " +:+ show (displayName ic) +:+ " references " +:+ detectedProject) st)
        st (matchAll_project (stringify (attrs_or_empty ic))).

(** The body of the outer [try]: the state it leaves and the message of
    the error thrown out of it, if any. *)
Definition scanBody (d : ProjectData) (projectId : string) (st : ScanState)
    : ScanState * option string :=
  let scope := "projects/" +:+ projectId in
  let st := stepXpnHost d projectId st in
  let st := stepListUsable d projectId st in
  let st := logCall (SearchAllResources scope networkAssetTypes 500) st in
  match searchResources d with
  | Rejected m => (st, Some m)
  | Resolved resources =>
      let st := foldl (resourceBody projectId) st resources in
      let st := logCall (SearchAllResources scope ["compute.googleapis.com/Instance"] 100) st in
      match searchInstances d with
      | Rejected m => (st, Some m)
      | Resolved instances =>
          match forOf (instanceBody projectId) instances st with
          | (st, Some m) => (st, Some m)
          | (st, None) =>
              let networks := List.filter (has_type "compute.googleapis.com/Network") resources in
              let st := foldl (networkBody projectId) st networks in
              let interconnects :=
                List.filter (has_type "compute.googleapis.com/InterconnectAttachment") resources in
              let st := foldl (interconnectBody projectId) st interconnects in
              (st, None)
          end
      end
  end.

(** One iteration of [for (const projectId of startProjects)]. *)
Definition scanProject (inv : Inventory) (st : ScanState) (projectId : string) : ScanState :=
  match scanBody (inv projectId) projectId (logScanning projectId st) with
  | (st', None) => st'
  | (st', Some m) => pushError projectId m st'
  end.

Definition startProjects (rootProjectsInput : RootInput) : list string :=
  match rootProjectsInput with
  | InArray projects => projects
  | InString text => List.map trim (split_comma text)
  | InOther => []
  end.

Definition initialState (roots : list string) : ScanState :=
  {| visitedProjects := set_from roots;
     projectGraph := [];
     scanning := [];
     calls := [];
     detected := [] |}.

Definition scanAll (inv : Inventory) (roots : list string) : ScanState :=
  foldl (scanProject inv) (initialState roots) roots.

Record ScopeResult : Type := {
  detectedScope : list string;
  relationships : list GraphEntry
}.

Definition detectAgentScope (inv : Inventory) (rootProjectsInput : RootInput) : ScopeResult :=
  let st := scanAll inv (startProjects rootProjectsInput) in
  {| detectedScope := visitedProjects st;
     relationships := projectGraph st |}.

(** The targets of the links of an edge list, in order. *)
Definition targets (g : list GraphEntry) : list string := omap entry_target g.

(** The scope a request is about. *)
Definition call_scope (c : ApiCall) : string :=
  match c with
  | GetXpnHost p | ListUsable p => "projects/" +:+ p
  | SearchAllResources scope _ _ => scope
  end.

(** What holds of the state throughout a run started from [roots]: the
    visited set is the roots followed by the link targets in the order
    they were pushed, every link pushed was detected, and the first
    detection of a project that is not a root is pushed. *)
Record ScanInvariant (roots : list string) (st : ScanState) : Prop := {
  inv_visited : visitedProjects st = (set_from roots ++ targets (projectGraph st))%list;
  inv_nodup : NoDup (visitedProjects st);
  inv_pushed : forall e, e ∈ projectGraph st -> entry_target e = None \/ e ∈ detected st;
  inv_first : forall (i : nat) (s t r : string),
      detected st !! i = Some (Link s t r) -> t ∉ roots ->
      (forall (j : nat) (e : GraphEntry),
          (j < i)%nat -> detected st !! j = Some e -> entry_target e <> Some t) ->
      Link s t r ∈ projectGraph st
}.

End Discovery.

(** ** Flow-log correlation: [queryVpcFlowLogs] (tools/vpc-flow-logs.ts) *)

Module FlowLogs.
Import Js.

(** A row of the query result.  [timestamp] is the value of
    [new Date(row.timestamp?.value || row.timestamp).getTime()], in
    milliseconds; the rows of the log table carry a valid timestamp. *)
Record Row : Type := {
  timestamp : Z;
  src_ip : string;
  src_port : Z;
  dest_ip : string;
  dest_port : Z;
  protocol : Z;
  bytes_sent : Z;
  rtt_msec : Z;
  subnetwork_name : string;
  resource_project_id : string
}.

(** [{ ...row, source_dataset_project: projectId }] *)
Record FlowLogRecord : Type := {
  row : Row;
  source_dataset_project : string
}.

Record ErrorEntry : Type := {
  projectId : string;
  error : string
}.

(** The [projects] argument: an array, or a single value that the
    function wraps in an array. *)
Inductive ProjectsInput : Type :=
| Projects (projects : list string)
| SingleProject (project : string).

Record Params : Type := {
  projects : ProjectsInput;
  sourceIp : string;
  destIp : string;
  limit : option Z;
  hoursAgo : option Z
}.

(** What a query job is given: the project whose table is read and the
    four query parameters. *)
Record QueryOptions : Type := {
  q_project : string;
  q_sourceIp : string;
  q_destIp : string;
  q_limit : Z;
  q_hoursAgo : Z
}.

(** [bigquery.query]: the answer may depend on the request and on how
    many requests were issued before it. *)
Definition BigQuery : Type := nat -> QueryOptions -> Outcome (list Row).

Record LoopState : Type := {
  results : list FlowLogRecord;
  errors : list ErrorEntry;
  queries : list QueryOptions
}.

(** Body of [for (const projectId of uniqueProjects)]. *)
Definition queryProject (bq : BigQuery) (sourceIp destIp : string) (limit hoursAgo : Z)
    (st : LoopState) (projectId : string) : LoopState :=
  let options :=
    {| q_project := projectId; q_sourceIp := sourceIp; q_destIp := destIp;
       q_limit := limit; q_hoursAgo := hoursAgo |} in
  match bq (length (queries st)) options with
  | Resolved rows =>
      {| results :=
           if (0 <? length rows)%nat then
             results st ++ List.map (fun r => {| row := r; source_dataset_project := projectId |}) rows
           else results st;
         errors := errors st;
         queries := queries st ++ [options] |}
  | Rejected message =>
      {| results := results st;
         errors := errors st ++ [{| projectId := projectId; error := message |}];
         queries := queries st ++ [options] |}
  end.

Definition time (r : FlowLogRecord) : Z := timestamp (row r).

(** [results.sort((a, b) => tB - tA)]: the sort is stable, so an element
    goes in front of the first later element that the comparator does
    not put before it. *)
Fixpoint insert_desc (x : FlowLogRecord) (l : list FlowLogRecord) : list FlowLogRecord :=
  match l with
  | [] => [x]
  | y :: r => if (time y - time x <=? 0) then x :: y :: r else y :: insert_desc x r
  end.

Fixpoint sort_desc (l : list FlowLogRecord) : list FlowLogRecord :=
  match l with
  | [] => []
  | x :: r => insert_desc x (sort_desc r)
  end.

(** [l.slice(0, end)] for an integer [end]: a negative [end] counts
    from the end of the array. *)
Definition slice0 {A : Type} (l : list A) (e : Z) : list A :=
  let len := Z.of_nat (length l) in
  let final := if e <? 0 then Z.max (len + e) 0 else Z.min e len in
  take (Z.to_nat final) l.

Record Result : Type := {
  recordCount : nat;
  records : list FlowLogRecord;
  errors_out : option (list ErrorEntry);
  message : string
}.

Definition uniqueProjects (p : Params) : list string :=
  let projectList :=
    match projects p with
    | Projects l => l
    | SingleProject x => [x]
    end in
  set_from projectList.

Definition limit_or_default (p : Params) : Z := default 20 (limit p).
Definition hoursAgo_or_default (p : Params) : Z := default 1 (hoursAgo p).

Definition runQueries (bq : BigQuery) (p : Params) : LoopState :=
  foldl (queryProject bq (sourceIp p) (destIp p) (limit_or_default p) (hoursAgo_or_default p))
        {| results := []; errors := []; queries := [] |}
        (uniqueProjects p).

Definition queryVpcFlowLogs (bq : BigQuery) (p : Params) : Result :=
  let st := runQueries bq p in
  let finalResults := slice0 (sort_desc (results st)) (limit_or_default p) in
  {| recordCount := length finalResults;
     records := finalResults;
     errors_out := if (0 <? length (errors st))%nat then Some (errors st) else None;
     message :=
       if (0 <? length finalResults)%nat then
         "Found " +:+ pretty (length finalResults) +:+ " flow log entries."
       else
         "No flow logs found. Verified in projects: " +:+ join ", " (uniqueProjects p)
         +:+ ". Ensure VPC Flow Logs are ENABLED and exported to BigQuery dataset 'flow_logs' in these projects." |}.

(** The error entries of a result, [undefined] read as none. *)
Definition reported_errors (r : Result) : list ErrorEntry := default [] (errors_out r).

Section Unrolled.
Variable bq : BigQuery.
Variable p : Params.

Definition optionsFor (projectId : string) : QueryOptions :=
  {| q_project := projectId; q_sourceIp := sourceIp p; q_destIp := destIp p;
     q_limit := limit_or_default p; q_hoursAgo := hoursAgo_or_default p |}.

(** What the loop appends to [errors] and to [results] while it goes
    through [ps], the first query being the [n]-th one issued. *)
Fixpoint errors_from (n : nat) (ps : list string) : list ErrorEntry :=
  match ps with
  | [] => []
  | x :: r =>
      match bq n (optionsFor x) with
      | Rejected m => {| projectId := x; error := m |} :: errors_from (S n) r
      | Resolved _ => errors_from (S n) r
      end
  end.

Fixpoint results_from (n : nat) (ps : list string) : list FlowLogRecord :=
  match ps with
  | [] => []
  | x :: r =>
      match bq n (optionsFor x) with
      | Resolved rows =>
          (List.map (fun r => {| row := r; source_dataset_project := x |}) rows
           ++ results_from (S n) r)%list
      | Rejected _ => results_from (S n) r
      end
  end.
End Unrolled.

End FlowLogs.

(** ** Reachability probe: [runConnectivityTest] (tools/connectivity-test.ts) *)

Module Connectivity.
Import Js.

Record Params : Type := {
  projectId : string;
  sourceIp : option string;
  sourceInstance : option string;
  destIp : option string;
  destInstance : option string;
  destinationPort : option Z;
  protocol : option string
}.

Record Trace : Type := { steps : option (list JValue) }.

Record ReachabilityDetails : Type := {
  result : option string;
  verifyTime : option string;
  error : option JValue;
  traces : option (list Trace)
}.

Record Response : Type := { reachabilityDetails : option ReachabilityDetails }.

(** Requests sent to the reachability service. *)
Inductive ApiCall : Type :=
| CreateConnectivityTest (parent testId name : string) (protocol : string)
| OperationPromise
| DeleteConnectivityTest (name : string).

Definition is_delete (c : ApiCall) : bool :=
  match c with
  | DeleteConnectivityTest _ => true
  | _ => false
  end.

(** The service as one invocation meets it: the answer to the create
    request, the completion of the returned operation, and the answer
    to the delete request. *)
Record Service : Type := {
  createConnectivityTest : Outcome unit;
  operation_promise : Outcome Response;
  deleteConnectivityTest : Outcome unit
}.

Inductive Result : Type :=
| Completed (testId : string) (result : option string) (verifyTime : option string)
    (errorInfo : option JValue) (fullTrace : list Trace)
    (discoveredScope : list string) (message : string)
| Failed (error suggestion : string).

(** Body of the innermost loop over the matches in one step. *)
Definition matchBody (projectId : string) (discoveredProjects : list string) (p : string)
    : list string :=
  if (negb (String.eqb p EmptyString) && negb (String.eqb p projectId)
      && negb (String.eqb p "google-cloud-clients"))%bool
  then set_add p discoveredProjects
  else discoveredProjects.

Definition stepBody (projectId : string) (discoveredProjects : list string) (step : JValue)
    : list string :=
  foldl (matchBody projectId) discoveredProjects (matchAll_project (stringify step)).

Definition traceBody (projectId : string) (discoveredProjects : list string) (trace : Trace)
    : list string :=
  match steps trace with
  | Some ss => foldl (stepBody projectId) discoveredProjects ss
  | None => discoveredProjects
  end.

Definition suggestion_text : string :=
  "Ensure API 'networkmanagement.googleapis.com' is enabled and the agent has permissions.".

(** [now] is the value of [Date.now()].  The function returns its
    result and the requests it sent, in order. *)
Definition runConnectivityTest (svc : Service) (now : N) (params : Params)
    : Result * list ApiCall :=
  let testId := "adk-test-" +:+ pretty now in
  let parent := "projects/" +:+ projectId params +:+ "/locations/global" in
  let name := parent +:+ "/connectivityTests/" +:+ testId in
  let protocol' := if truthy_str (protocol params) then show (protocol params) else "TCP" in
  let sent := [CreateConnectivityTest parent testId name protocol'] in
  match createConnectivityTest svc with
  | Rejected m => (Failed m suggestion_text, sent)
  | Resolved _ =>
      let sent := (sent ++ [OperationPromise])%list in
      match operation_promise svc with
      | Rejected m => (Failed m suggestion_text, sent)
      | Resolved response =>
          let details := reachabilityDetails response in
          let result := details ≫= result in
          let verifyTime := details ≫= verifyTime in
          let error := details ≫= error in
          let traces := default [] (details ≫= traces) in
          let discoveredProjects := foldl (traceBody (projectId params)) [] traces in
          let sent := (sent ++ [DeleteConnectivityTest name])%list in
          match deleteConnectivityTest svc with
          | Rejected m => (Failed m suggestion_text, sent)
          | Resolved _ =>
              (Completed testId result verifyTime error traces discoveredProjects
                 ("Test completed. Result: " +:+ show result
                  +:+ ". Discovered related projects: " +:+ join ", " discoveredProjects),
               sent)
          end
      end
  end.

Definition delete_calls (sent : list ApiCall) : nat :=
  length (List.filter is_delete sent).

End Connectivity.

(** ** Firewall mutation: [manageFirewallRule] (tools/firewall-manager.ts) *)

Module Firewall.
Import Js.

Record Allowed : Type := {
  IPProtocol : option string;
  ports : option (list string)
}.

(** [params] is untyped.  [network] is the one property a method is
    called on, so it is kept as the value received ([None] when the
    property is absent); the other properties are only compared, copied
    or put into a template literal, none of which throws, and have the
    types of the parameter schema. *)
Record Params : Type := {
  projectId : string;
  action : string;
  ruleName : string;
  network : option JValue;
  description : option string;
  direction : option string;
  priority : option Z;
  targetTags : option (list string);
  sourceRanges : option (list string);
  allowed : option (list Allowed);
  denied : option (list Allowed)
}.

(** The resource sent with a create or update request; a field that is
    [None] is one the function deleted (or never set). *)
Record FirewallResource : Type := {
  fr_name : option string;
  fr_network : option JValue;
  fr_description : option string;
  fr_direction : option string;
  fr_priority : option Z;
  fr_targetTags : option (list string);
  fr_sourceRanges : option (list string);
  fr_allowed : option (list Allowed);
  fr_denied : option (list Allowed)
}.

(** Requests sent to the firewalls client, and the wait on the
    operation it returned. *)
Inductive ApiCall : Type :=
| Insert (project : string) (firewallResource : FirewallResource)
| Patch (project firewall : string) (firewallResource : FirewallResource)
| Delete (project firewall : string)
| OperationPromise.

Definition is_mutation (c : ApiCall) : bool :=
  match c with
  | Insert _ _ | Patch _ _ _ | Delete _ _ => true
  | OperationPromise => false
  end.

(** The returned operation: it may lack a [promise] method; if it has
    one, calling it resolves or rejects. *)
Record Operation : Type := { promise : option (Outcome unit) }.

(** The client as one invocation meets it. *)
Definition Client : Type := ApiCall -> Outcome Operation.

Inductive Status : Type := success | error.

Record Details : Type := {
  d_projectId : string;
  d_ruleName : string;
  d_action : string
}.

Record Result : Type := {
  status : Status;
  message : string;
  details : option Details
}.

(** How a call of the function ends: it returns a value, or an error
    propagates to the caller. *)
Inductive Completion : Type :=
| Returns (r : Result)
| Throws (message : string).

(** [network.includes('/')]: a string and an array have the method
    (on an array it looks for an element that is the string [/]); on a
    number, a boolean or an object the call throws a TypeError. *)
Definition has_includes (n : JValue) : bool :=
  match n with
  | JStr _ | JArr _ => true
  | _ => false
  end.

Definition is_slash_string (x : JValue) : bool :=
  match x with
  | JStr s => String.eqb s "/"
  | _ => false
  end.

Definition includes_slash (n : JValue) : bool + string :=
  match n with
  | JStr s => inl (includes_char "/" s)
  | JArr items => inl (existsb is_slash_string items)
  | _ => inr "network.includes is not a function"
  end.

(** Lines 25 to 28, which stand before the [try]: the value of
    [networkUri], or the error thrown. *)
Definition networkUri (p : Params) : option JValue + string :=
  match network p with
  | None => inl None
  | Some n =>
      if truthy n then
        match includes_slash n with
        | inr m => inr m
        | inl true => inl (Some n)
        | inl false =>
            inl (Some (JStr ("projects/" +:+ projectId p +:+ "/global/networks/" +:+ to_text n)))
        end
      else inl (Some n)
  end.

(** [if (networkUri) firewallResource.network = networkUri]. *)
Definition when_truthy (u : option JValue) : option JValue :=
  match u with
  | Some v => if truthy v then u else None
  | None => None
  end.

(** The request the [try] block sends for an action, or the error it
    throws for an action it does not know. *)
Definition request (networkUri : option JValue) (p : Params) : ApiCall + string :=
  if String.eqb (action p) "create" then
    inl (Insert (projectId p)
           {| fr_name := Some (ruleName p);
              fr_network := networkUri;
              fr_description := description p;
              fr_direction := direction p;
              fr_priority := priority p;
              fr_targetTags := targetTags p;
              fr_sourceRanges := sourceRanges p;
              fr_allowed := allowed p;
              fr_denied := denied p |})
  else if String.eqb (action p) "update" then
    inl (Patch (projectId p) (ruleName p)
           {| fr_name := Some (ruleName p);
              fr_network := when_truthy networkUri;
              fr_description := description p;
              fr_direction := direction p;
              fr_priority := priority p;
              fr_targetTags := targetTags p;
              fr_sourceRanges := sourceRanges p;
              fr_allowed := allowed p;
              fr_denied := denied p |})
  else if String.eqb (action p) "delete" then
    inl (Delete (projectId p) (ruleName p))
  else inr ("Unknown action: " +:+ action p).

(** The [try] block: the value it returns or the error thrown inside
    it, with the requests sent. *)
Definition tryBlock (client : Client) (networkUri : option JValue) (p : Params)
    : (Result + string) * list ApiCall :=
  match request networkUri p with
  | inr m => (inr m, [])
  | inl call =>
      match client call with
      | Rejected m => (inr m, [call])
      | Resolved operation =>
          let ok :=
            {| status := success;
               message := "Successfully performed '" +:+ action p
                          +:+ "' on firewall rule '" +:+ ruleName p +:+ "'.";
               details := Some {| d_projectId := projectId p;
                                  d_ruleName := ruleName p;
                                  d_action := action p |} |} in
          match promise operation with
          | Some (Rejected m) => (inr m, [call; OperationPromise])
          | Some (Resolved _) => (inl ok, [call; OperationPromise])
          | None => (inl ok, [call])
          end
      end
  end.

(** The [catch] block. *)
Definition catchBlock (p : Params) (m : string) : Result :=
  {| status := error;
     message := "Failed to " +:+ action p +:+ " firewall rule: " +:+ m;
     details := None |}.

Definition known_action (a : string) : Prop :=
  a = "create" \/ a = "update" \/ a = "delete".

Definition manageFirewallRule (client : Client) (p : Params) : Completion * list ApiCall :=
  match networkUri p with
  | inr m => (Throws m, [])
  | inl uri =>
      match tryBlock client uri p with
      | (inl r, sent) => (Returns r, sent)
      | (inr m, sent) => (Returns (catchBlock p m), sent)
      end
  end.

End Firewall.

(** ** Agent wiring: the agent tree and [runAgent] (agent.ts) *)

Module Agent.
Import Js.

(** [new LlmAgent({ name, tools, subAgents })]; a tool is given by the
    [name] of its [FunctionTool]. *)
Inductive LlmAgent : Type :=
| mkAgent (name : string) (tools : list string) (subAgents : list LlmAgent).

Definition name (a : LlmAgent) : string := let 'mkAgent n _ _ := a in n.
Definition tools (a : LlmAgent) : list string := let 'mkAgent _ t _ := a in t.
Definition subAgents (a : LlmAgent) : list LlmAgent := let 'mkAgent _ _ s := a in s.

Definition fetchNetworkArchitectureTool : string := "fetch_network_architecture".
Definition identifyNetworkProjectsTool : string := "identify_network_projects".
Definition connectivityTestTool : string := "connectivity_test_tool".
Definition vpcFlowLogsTool : string := "query_vpc_flow_logs".
Definition firewallManagerTool : string := "manage_firewall_rule".

(** The delegating wiring: coordinator, diagnostic role, remediation role. *)
Module Delegating.

Definition firewallAdminAgent : LlmAgent :=
  mkAgent "firewall_admin" [firewallManagerTool] [].

Definition troubleshooterAgent : LlmAgent :=
  mkAgent "troubleshooter"
    [fetchNetworkArchitectureTool; identifyNetworkProjectsTool; connectivityTestTool; vpcFlowLogsTool]
    [firewallAdminAgent].

Definition agent : LlmAgent :=
  mkAgent "network_support" [] [troubleshooterAgent].

End Delegating.

(** The single-agent wiring: one role holds all five tools. *)
Module Single.

Definition agent : LlmAgent :=
  mkAgent "network_support"
    [fetchNetworkArchitectureTool; identifyNetworkProjectsTool; connectivityTestTool;
     vpcFlowLogsTool; firewallManagerTool]
    [].

End Single.

(** What a session records. *)
Inductive Event : Type :=
| UserMessage (text : string)
| AgentText (author text : string)
| ToolCall (author tool : string)
| Transfer (author target : string).

Definition author (e : Event) : string :=
  match e with
  | UserMessage _ => "user"
  | AgentText a _ | ToolCall a _ | Transfer a _ => a
  end.

(** [stringifyContent]: the text parts of an event. *)
Definition stringifyContent (e : Event) : string :=
  match e with
  | UserMessage t | AgentText _ t => t
  | ToolCall _ _ | Transfer _ _ => EmptyString
  end.

(** A decision of the reasoning oracle: invoke a tool by name, hand
    over to an agent by name, or give the answer that ends the run. *)
Inductive Decision : Type :=
| CallTool (tool : string)
| TransferToAgent (agent_name : string)
| Respond (text : string).

Fixpoint findAgent (n : string) (a : LlmAgent) : option LlmAgent :=
  match a with
  | mkAgent nm _ subs =>
      if String.eqb nm n then Some a
      else (fix go (l : list LlmAgent) : option LlmAgent :=
              match l with
              | [] => None
              | x :: r =>
                  match findAgent n x with
                  | Some y => Some y
                  | None => go r
                  end
              end) subs
  end.

(** Modelled from the spec: the run loop ([Runner.runAsync]) belongs to
    the agent library and is not in the repository.  After the
    interface of the reasoning oracle (section 6) and the delegation
    model (section 4.6): the oracle asks for a tool or gives a final
    answer; the active role may invoke only a tool declared in its own
    tool list, any other request being dropped; a hand-over names an
    agent of the tree, which becomes the active role; a final answer
    ends the run.  A request is first received by the coordinator (the
    root agent), so a run is started with [active] set to [root]. *)
Fixpoint run (root active : LlmAgent) (decisions : list Decision) : list Event :=
  match decisions with
  | [] => []
  | CallTool t :: r =>
      if bool_decide (t ∈ tools active)
      then ToolCall (name active) t :: run root active r
      else run root active r
  | TransferToAgent n :: r =>
      match findAgent n root with
      | Some a => Transfer (name active) n :: run root a r
      | None => run root active r
      end
  | Respond text :: _ => [AgentText (name active) text]
  end.

(** The agents of the delegating wiring. *)
Definition in_tree (a : LlmAgent) : Prop :=
  a = Delegating.agent \/ a = Delegating.troubleshooterAgent \/ a = Delegating.firewallAdminAgent.

(** The in-memory session service of the library, as a finite map:
    sessions by identifier, each the list of its events, oldest first.
    Its [getSession] is a lookup and does not fail, so the catch block
    around it in [runAgent] is never entered. *)
Abbreviation Sessions := (gmap string (list Event)).

Definition sessionIdAt (now : N) : string := "session-" +:+ pretty now.

Definition newMessage (prompt projectId : string) : Event :=
  UserMessage ("Project ID: " +:+ projectId +:+ ". " +:+ prompt).

(** [getSession] then [createSession] when there is none. *)
Definition ensureSession (sessionId : string) (store : Sessions) : Sessions :=
  match store !! sessionId with
  | Some _ => store
  | None => <[sessionId := []]> store
  end.

Record AgentResult : Type := {
  response : string;
  details : list Event
}.

Definition newline : string := String (ascii_of_N 10) EmptyString.

(** One request.  [now] is the value of [Date.now()], [decisions] what
    the oracle decides during the run.  [runner.runAsync] is given the
    session identifier and the new message: the message and the events
    of the run are appended to that session. *)
Definition runAgent (root : LlmAgent) (now : N) (decisions : list Decision)
    (store : Sessions) (prompt projectId : string) : AgentResult * Sessions :=
  let sessionId := sessionIdAt now in
  let store := ensureSession sessionId store in
  let history := default [] (store !! sessionId) in
  let events := run root root decisions in
  let textResponses :=
    List.filter (fun text => negb (String.eqb (trim text) EmptyString))
      (List.map stringifyContent
         (List.filter (fun e => String.eqb (author e) (name root)) events)) in
  ({| response := join newline textResponses; details := events |},
   <[sessionId := (history ++ newMessage prompt projectId :: events)%list]> store).

(** A conversation: the successive requests of one user, each with the
    clock value at which it arrives and the decisions taken in it. *)
Record Request : Type := {
  at_time : N;
  prompt : string;
  project : string;
  decisions : list Decision
}.

Definition serve (root : LlmAgent) (store : Sessions) (r : Request) : Sessions :=
  snd (runAgent root (at_time r) (decisions r) store (prompt r) (project r)).

Definition converse (root : LlmAgent) (requests : list Request) : Sessions :=
  foldl (serve root) ∅ requests.

(** The events of the session that serves a request arriving at [now]. *)
Definition sessionOf (store : Sessions) (now : N) : list Event :=
  default [] (store !! sessionIdAt now).

Definition is_agent_text (e : Event) : bool :=
  match e with
  | AgentText _ _ => true
  | _ => false
  end.

(** The gate as the design document words it: every invocation of the
    mutating tool comes after a user turn classified as affirmative,
    itself after an answer of an agent (the proposal). *)
Definition confirmation_gate (affirmative : string -> bool) (events : list Event) : Prop :=
  forall (k : nat) (a : string),
    events !! k = Some (ToolCall a firewallManagerTool) ->
    exists (i j : nat) (e : Event) (text : string),
      (i < j)%nat /\ (j < k)%nat /\
      events !! i = Some e /\ is_agent_text e = true /\
      events !! j = Some (UserMessage text) /\ affirmative text = true.

End Agent.

(** ** Project reference helper: [extractProjectFromUrl] (tools/identify-network-projects.ts) *)

Module UrlHelper.
Import Js.

(** [url] is a string, [null] or [undefined]; the last two, and the
    empty string, give [null]. *)
Definition extractProjectFromUrl (url : option string) : option string :=
  if truthy_str url then match_project (show url) else None.

End UrlHelper.

(** ** Topology inventory: [describeNetworkArchitecture] (tools/fetch-network-architecture.ts) *)

Module Architecture.
Import Js.

(** A resource as the inventory search returns it. *)
Record Asset : Type := {
  name : option string;
  assetType : option string;
  displayName : option string;
  location : option string;
  description : option string;
  additionalAttributes : option JValue
}.

(** The entry pushed for a resource. *)
Record Item : Type := {
  i_name : option string;
  i_displayName : option string;
  i_location : option string;
  i_description : option string;
  i_additionalAttributes : option JValue
}.

Definition toItem (res : Asset) : Item :=
  {| i_name := name res;
     i_displayName := displayName res;
     i_location := location res;
     i_description := description res;
     i_additionalAttributes := additionalAttributes res |}.

(** [res.assetType || 'unknown'] *)
Definition typeOf (res : Asset) : string :=
  if truthy_str (assetType res) then show (assetType res) else "unknown".

(** [summary] starts as the object literal [{}], so reading one of
    these keys finds a member inherited from [Object.prototype]
    instead of [undefined]. *)
Definition inheritedKeys : list string :=
  [ "constructor"; "__proto__"; "hasOwnProperty"; "isPrototypeOf";
    "propertyIsEnumerable"; "toLocaleString"; "toString"; "valueOf";
    "__defineGetter__"; "__defineSetter__"; "__lookupGetter__"; "__lookupSetter__" ].

Abbreviation Summary := (gmap string (list Item)).

(** Body of the loop: [if (!summary[type]) summary[type] = [];
    summary[type].push({...})].  For an inherited key the test finds a
    truthy member without a [push] method, and the call throws. *)
Definition groupBody (res : Asset) (summary : Summary) : Summary + string :=
  let type := typeOf res in
  if bool_decide (type ∈ inheritedKeys) then
    inr "summary[type].push is not a function"
  else
    inl (<[type := (default [] (summary !! type) ++ [toItem res])%list]> summary).

Fixpoint groupAll (resources : list Asset) (summary : Summary) : Summary + string :=
  match resources with
  | [] => inl summary
  | res :: r =>
      match groupBody res summary with
      | inl summary' => groupAll r summary'
      | inr m => inr m
      end
  end.

Record Result : Type := {
  resourceCount : nat;
  resources : Summary
}.

(** How a call ends: this function rethrows what it catches. *)
Inductive Completion : Type :=
| Returns (r : Result)
| Throws (message : string).

Definition architectureAssetTypes : list string :=
  [ "compute.googleapis.com/Network";
    "compute.googleapis.com/Subnetwork";
    "compute.googleapis.com/Firewall";
    "compute.googleapis.com/Route";
    "compute.googleapis.com/VpnTunnel";
    "compute.googleapis.com/ForwardingRule";
    "compute.googleapis.com/UrlMap";
    "compute.googleapis.com/TargetHttpProxy";
    "compute.googleapis.com/BackendService" ].

(** [search] answers [client.searchAllResources] for a scope, a list of
    asset types and a page size. *)
Definition describeNetworkArchitecture
    (search : string -> list string -> Z -> Outcome (list Asset))
    (projectId : string) : Completion :=
  let scope := "projects/" +:+ projectId in
  let thrown (m : string) := Throws ("Failed to list assets: " +:+ m) in
  match search scope architectureAssetTypes 500 with
  | Rejected m => thrown m
  | Resolved found =>
      match groupAll found ∅ with
      | inl summary => Returns {| resourceCount := length found; resources := summary |}
      | inr m => thrown m
      end
  end.

(** The group of a type, [undefined] read as no item. *)
Definition group (r : Result) (type : string) : list Item :=
  default [] (resources r !! type).

End Architecture.

(** ** HTTP front end: the [/query] handler (index.ts) *)

Module Server.
Import Js.

(** The fields the handler reads from the request body (an object, as
    the JSON body parser leaves it). *)
Record Body : Type := {
  prompt : option string;
  projectId : option string
}.

Inductive Payload (A : Type) : Type :=
| ErrorPayload (error : string)
| ResultPayload (result : A).
Arguments ErrorPayload {A} error.
Arguments ResultPayload {A} result.

Record Response (A : Type) : Type := {
  status : Z;
  payload : Payload A
}.
Arguments status {A} _.
Arguments payload {A} _.

(** [projectId || process.env.GOOGLE_CLOUD_PROJECT] *)
Definition targetProjectId (env : option string) (body : Body) : option string :=
  or_else (projectId body) env.

(** [env] is [process.env.GOOGLE_CLOUD_PROJECT]; [agent] answers
    [runAgent(prompt, targetProjectId)].  The handler returns the
    response sent and the calls of [runAgent] it made. *)
Definition query {A : Type} (env : option string)
    (agent : string -> string -> Outcome A) (body : Body)
    : Response A * list (string * string) :=
  if negb (truthy_str (prompt body)) then
    ({| status := 400; payload := ErrorPayload "Prompt is required" |}, [])
  else if negb (truthy_str (targetProjectId env body)) then
    ({| status := 400;
        payload := ErrorPayload "ProjectId is required in body or GOOGLE_CLOUD_PROJECT env var" |},
     [])
  else
    let p := show (prompt body) in
    let t := show (targetProjectId env body) in
    match agent p t with
    | Resolved result => ({| status := 200; payload := ResultPayload result |}, [(p, t)])
    | Rejected m => ({| status := 500; payload := ErrorPayload m |}, [(p, t)])
    end.

End Server.

(** ** Properties under examination, and sample inputs *)

Module Claims.
Import Js.

Fixpoint all_white_space (s : string) : bool :=
  match s with
  | EmptyString => true
  | String c r => (is_white_space c && all_white_space r)%bool
  end.

(** [t] is [w] trimmed: [w] is [t] between two runs of white space, and
    [t] neither begins nor ends with white space. *)
Definition trimmed_of (w t : string) : Prop :=
  (exists lead trail,
      w = lead +:+ t +:+ trail
      /\ all_white_space lead = true /\ all_white_space trail = true)
  /\ (forall c, head_char t = Some c \/ last_char t = Some c -> is_white_space c = false).


(** No edge of the result targets the deny-listed identifier. *)
Definition deny_list_respected (res : Discovery.ScopeResult) : Prop :=
  forall s r : string,
    Discovery.Link s "google-cloud-clients" r ∉ Discovery.relationships res.

(** The records are in descending order of timestamp. *)
Fixpoint sorted_desc (l : list FlowLogs.FlowLogRecord) : Prop :=
  match l with
  | [] => True
  | x :: r => (forall y, y ∈ r -> FlowLogs.time y <= FlowLogs.time x) /\ sorted_desc r
  end.

(** The result holds no more records than the limit in force. *)
Definition within_limit (p : FlowLogs.Params) (r : FlowLogs.Result) : Prop :=
  Z.of_nat (length (FlowLogs.records r)) <= FlowLogs.limit_or_default p.

(** No record of the result is tagged with a project that has an error
    entry. *)
Definition no_record_of_failed_project (r : FlowLogs.Result) : Prop :=
  forall rec e,
    rec ∈ FlowLogs.records r -> e ∈ FlowLogs.reported_errors r ->
    FlowLogs.source_dataset_project rec <> FlowLogs.projectId e.

(** Exactly one delete request, whatever the service answers. *)
Definition one_delete_always (svc : Connectivity.Service) (now : N) (p : Connectivity.Params) : Prop :=
  Connectivity.delete_calls (snd (Connectivity.runConnectivityTest svc now p)) = 1%nat.

(** All the requests of a conversation are served by one session, which
    therefore holds every user message of the conversation. *)
Definition one_session_per_conversation (requests : list Agent.Request) : Prop :=
  forall r1 r2 : Agent.Request,
    r1 ∈ requests -> r2 ∈ requests ->
    Agent.sessionIdAt (Agent.at_time r1) = Agent.sessionIdAt (Agent.at_time r2).

End Claims.

Module Samples.
Import Js.

(** A project with nothing to report. *)
Definition quietProject : Discovery.ProjectData :=
  {| Discovery.getXpnHost := Rejected "Not a service project";
     Discovery.listUsableAsync := ([], None);
     Discovery.searchResources := Resolved [];
     Discovery.searchInstances := Resolved [] |}.

Definition sharedSubnetUrl : string :=
  "https://www.googleapis.com/compute/v1/projects/proj-b/regions/us-central1/subnetworks/shared".

(** [proj-a] is a service project of host [proj-b]: the host lookup
    names it, and so does a usable subnet. *)
Definition serviceProject : Discovery.ProjectData :=
  {| Discovery.getXpnHost := Resolved (Some {| Discovery.xpn_name := Some "proj-b" |});
     Discovery.listUsableAsync :=
       ([{| Discovery.subnetwork := Some sharedSubnetUrl; Discovery.network := None |}], None);
     Discovery.searchResources := Resolved [];
     Discovery.searchInstances := Resolved [] |}.

Definition sharedVpcInventory : Discovery.Inventory :=
  fun p => if String.eqb p "proj-a" then serviceProject else quietProject.

Definition internalNetworkUrl : string :=
  "https://www.googleapis.com/compute/v1/projects/google-cloud-clients/global/networks/default".

(** A network of [proj-a] is peered with a network of the provider's
    internal project. *)
Definition peeredProject : Discovery.ProjectData :=
  {| Discovery.getXpnHost := Rejected "Not a service project";
     Discovery.listUsableAsync := ([], None);
     Discovery.searchResources :=
       Resolved [{| Discovery.assetType := Some "compute.googleapis.com/Network";
                    Discovery.displayName := Some "vpc-1";
                    Discovery.additionalAttributes :=
                      Some (JObj [("peerings",
                                   JArr [JObj [("network", JStr internalNetworkUrl)]])]) |}];
     Discovery.searchInstances := Resolved [] |}.

Definition peeredInventory : Discovery.Inventory :=
  fun p => if String.eqb p "proj-a" then peeredProject else quietProject.

(** The same network, seen on the interface of an instance instead. *)
Definition instanceProject : Discovery.ProjectData :=
  {| Discovery.getXpnHost := Rejected "Not a service project";
     Discovery.listUsableAsync := ([], None);
     Discovery.searchResources := Resolved [];
     Discovery.searchInstances :=
       Resolved [{| Discovery.assetType := Some "compute.googleapis.com/Instance";
                    Discovery.displayName := Some "vm-1";
                    Discovery.additionalAttributes :=
                      Some (JObj [("networkInterfaces",
                                   JArr [JObj [("network", JStr internalNetworkUrl)]])]) |}] |}.

Definition instanceInventory : Discovery.Inventory :=
  fun p => if String.eqb p "proj-a" then instanceProject else quietProject.

(** Flow logs: eight rows in [p2], [p1] has no log table. *)
Definition flowRow (t : Z) : FlowLogs.Row :=
  {| FlowLogs.timestamp := t;
     FlowLogs.src_ip := "10.0.0.1"; FlowLogs.src_port := 44321;
     FlowLogs.dest_ip := "10.0.0.2"; FlowLogs.dest_port := 443;
     FlowLogs.protocol := 6; FlowLogs.bytes_sent := 1200; FlowLogs.rtt_msec := 3;
     FlowLogs.subnetwork_name := "default"; FlowLogs.resource_project_id := "p2" |}.

Definition flowLogTables : FlowLogs.BigQuery :=
  fun _ options =>
    if String.eqb (FlowLogs.q_project options) "p2"
    then Resolved (List.map flowRow [1700000008000; 1700000007000; 1700000006000; 1700000005000;
                                     1700000004000; 1700000003000; 1700000002000; 1700000001000])
    else Rejected "Not found: Table p1:flow_logs._Default".

Definition flowParams (limit : option Z) : FlowLogs.Params :=
  {| FlowLogs.projects := FlowLogs.Projects ["p1"; "p2"];
     FlowLogs.sourceIp := "10.0.0.1";
     FlowLogs.destIp := "10.0.0.2";
     FlowLogs.limit := limit;
     FlowLogs.hoursAgo := Some 1 |}.

(** A limit below zero is refused by every query job. *)
Definition limitRefused : FlowLogs.BigQuery :=
  fun _ _ => Rejected "LIMIT must be non-negative".

(** Reachability service whose create request is refused. *)
Definition apiDisabled : Connectivity.Service :=
  {| Connectivity.createConnectivityTest := Rejected "Network Management API has not been used in project";
     Connectivity.operation_promise := Resolved {| Connectivity.reachabilityDetails := None |};
     Connectivity.deleteConnectivityTest := Resolved tt |}.

(** Reachability service that answers every request. *)
Definition reachable : Connectivity.Service :=
  {| Connectivity.createConnectivityTest := Resolved tt;
     Connectivity.operation_promise :=
       Resolved {| Connectivity.reachabilityDetails :=
                     Some {| Connectivity.result := Some "REACHABLE";
                             Connectivity.verifyTime := None;
                             Connectivity.error := None;
                             Connectivity.traces :=
                               Some [{| Connectivity.steps :=
                                          Some [JObj [("network", JStr sharedSubnetUrl)]] |}] |} |};
     Connectivity.deleteConnectivityTest := Resolved tt |}.

Definition probeParams : Connectivity.Params :=
  {| Connectivity.projectId := "proj-a";
     Connectivity.sourceIp := Some "10.0.0.1";
     Connectivity.sourceInstance := None;
     Connectivity.destIp := Some "10.0.0.2";
     Connectivity.destInstance := None;
     Connectivity.destinationPort := Some 443;
     Connectivity.protocol := None |}.

(** Firewall requests. *)
Definition ruleOnNetwork (network : option Js.JValue) (action : string) : Firewall.Params :=
  {| Firewall.projectId := "proj-a";
     Firewall.action := action;
     Firewall.ruleName := "allow-web";
     Firewall.network := network;
     Firewall.description := None;
     Firewall.direction := Some "INGRESS";
     Firewall.priority := Some 1000;
     Firewall.targetTags := None;
     Firewall.sourceRanges := Some ["10.0.0.0/8"];
     Firewall.allowed := Some [{| Firewall.IPProtocol := Some "tcp"; Firewall.ports := Some ["80"] |}];
     Firewall.denied := None |}.

Definition ruleParams (action : string) : Firewall.Params :=
  ruleOnNetwork (Some (Js.JStr "default")) action.

(** The same rule with the number 5 where the network is expected. *)
Definition numberedNetwork (action : string) : Firewall.Params :=
  ruleOnNetwork (Some (Js.JNum 5)) action.

Definition permissionDenied : Firewall.Client :=
  fun _ => Rejected "Required 'compute.firewalls.create' permission".

(** A conversation of two requests: the diagnosis, then the reply to
    the proposal. *)
Definition diagnose : Agent.Request :=
  {| Agent.at_time := 1700000000000;
     Agent.prompt := "Why can vm-1 not reach 10.0.0.2 on port 443?";
     Agent.project := "proj-a";
     Agent.decisions :=
       [Agent.TransferToAgent "troubleshooter";
        Agent.CallTool "identify_network_projects";
        Agent.Respond "Port 443 is blocked. Would you like to apply this fix?"] |}.

Definition confirm : Agent.Request :=
  {| Agent.at_time := 1700000060000;
     Agent.prompt := "Yes, go ahead.";
     Agent.project := "proj-a";
     Agent.decisions := [Agent.Respond "Which fix do you mean?"] |}.

(** A single request in which the oracle goes straight to the
    remediation role. *)
Definition hasty : Agent.Request :=
  {| Agent.at_time := 1700000000000;
     Agent.prompt := "Why can vm-1 not reach 10.0.0.2 on port 443?";
     Agent.project := "proj-a";
     Agent.decisions :=
       [Agent.TransferToAgent "troubleshooter";
        Agent.TransferToAgent "firewall_admin";
        Agent.CallTool "manage_firewall_rule"] |}.

End Samples.

Module MoreSamples.
Import Js.

Definition asset (type name : string) : Architecture.Asset :=
  {| Architecture.name := Some ("//compute.googleapis.com/projects/proj-a/global/" +:+ name);
     Architecture.assetType := Some type;
     Architecture.displayName := Some name;
     Architecture.location := Some "global";
     Architecture.description := None;
     Architecture.additionalAttributes := None |}.

(** An inventory holding two networks and a firewall rule. *)
Definition threeAssets (scope : string) (assetTypes : list string) (pageSize : Z)
    : Outcome (list Architecture.Asset) :=
  Resolved [ asset "compute.googleapis.com/Network" "vpc-1";
             asset "compute.googleapis.com/Firewall" "allow-web";
             asset "compute.googleapis.com/Network" "vpc-2" ].

End MoreSamples.

(** * Properties *)

(** ** Insertion-ordered sets and string helpers *)

Module JsFacts.
Import Js.

Lemma set_has_true (x : string) (s : list string) : set_has x s = true <-> x ∈ s.
Proof. unfold set_has. apply bool_decide_eq_true. Qed.

Lemma set_has_false (x : string) (s : list string) : set_has x s = false <-> x ∉ s.
Proof. unfold set_has. apply bool_decide_eq_false. Qed.

Lemma elem_of_set_add (x y : string) (s : list string) :
  x ∈ set_add y s <-> x = y \/ x ∈ s.
Proof.
  unfold set_add. destruct (set_has y s) eqn:E.
  - apply set_has_true in E. split; [auto | intros [-> | H]; assumption].
  - rewrite elem_of_app, list_elem_of_singleton. tauto.
Qed.

Lemma NoDup_set_add (y : string) (s : list string) : NoDup s -> NoDup (set_add y s).
Proof.
  intros Hs. unfold set_add. destruct (set_has y s) eqn:E; [assumption |].
  apply set_has_false in E. apply NoDup_app. split; [assumption |].
  split; [| apply NoDup_singleton].
  intros x Hx Hy. apply list_elem_of_singleton in Hy. subst. contradiction.
Qed.

Lemma foldl_set_add_spec (l acc : list string) :
  NoDup acc ->
  NoDup (foldl (fun s x => set_add x s) acc l) /\
  forall x, x ∈ foldl (fun s x => set_add x s) acc l <-> x ∈ acc \/ x ∈ l.
Proof.
  revert acc. induction l as [| a l IH]; intros acc Hacc; simpl.
  - split; [assumption |]. intros x. rewrite elem_of_nil. tauto.
  - destruct (IH (set_add a acc) (NoDup_set_add a acc Hacc)) as [Hnd Hin].
    split; [assumption |]. intros x. rewrite Hin, elem_of_set_add, elem_of_cons. tauto.
Qed.

Lemma NoDup_set_from (l : list string) : NoDup (set_from l).
Proof. apply (foldl_set_add_spec l []). constructor. Qed.

Lemma elem_of_set_from (x : string) (l : list string) : x ∈ set_from l <-> x ∈ l.
Proof.
  unfold set_from. destruct (foldl_set_add_spec l [] (NoDup_nil_2)) as [_ H].
  rewrite H, elem_of_nil. tauto.
Qed.

Lemma split_comma_cons (s : string) : exists w ws, split_comma s = w :: ws.
Proof.
  induction s as [| c r [w [ws IH]]]; simpl; [eauto |].
  destruct (Ascii.eqb c ","); [eauto |]. rewrite IH. eauto.
Qed.

(** [split(',')] is undone by [join(',')], and no piece holds a comma. *)
Lemma join_split_comma (s : string) : join "," (split_comma s) = s.
Proof.
  induction s as [| c r IH]; simpl; [reflexivity |].
  destruct (split_comma_cons r) as [w [ws Er]]. rewrite Er in *.
  destruct (Ascii.eqb c ",") eqn:E.
  - apply Ascii.eqb_eq in E. subst c. simpl in *. rewrite IH. reflexivity.
  - rewrite <- IH. destruct ws; reflexivity.
Qed.

Lemma split_comma_no_comma (s w : string) :
  w ∈ split_comma s -> includes_char "," w = false.
Proof.
  revert w. induction s as [| c r IH]; simpl; intros w Hw.
  - apply list_elem_of_singleton in Hw. subst. reflexivity.
  - destruct (split_comma_cons r) as [w0 [ws Er]]. rewrite Er in *.
    destruct (Ascii.eqb c ",") eqn:E.
    + apply elem_of_cons in Hw as [-> | Hw]; [reflexivity | auto].
    + apply elem_of_cons in Hw as [-> | Hw].
      * cbn [includes_char]. rewrite (Ascii.eqb_sym "," c), E. simpl.
        apply IH. left.
      * apply IH. right. assumption.
Qed.

(** [trim] leaves no white space at either end. *)
Lemma trimStart_head (s : string) (c : ascii) :
  head_char (trimStart s) = Some c -> is_white_space c = false.
Proof.
  induction s as [| d r IH]; simpl; [discriminate |].
  destruct (is_white_space d) eqn:E; [assumption |].
  simpl. intros [= <-]. assumption.
Qed.

Lemma trimEnd_last (s : string) (c : ascii) :
  last_char (trimEnd s) = Some c -> is_white_space c = false.
Proof.
  induction s as [| d r IH]; simpl; [discriminate |].
  destruct (trimEnd r) as [| e r'] eqn:Er.
  - destruct (is_white_space d) eqn:E; simpl; [discriminate |].
    intros [= <-]. assumption.
  - intros H. apply IH. simpl in *. exact H.
Qed.

Lemma trimEnd_head (s : string) (c : ascii) :
  head_char s = Some c -> is_white_space c = false -> head_char (trimEnd s) = Some c.
Proof.
  destruct s as [| d r]; simpl; [discriminate |].
  intros [= ->] Hc. destruct (trimEnd r); [rewrite Hc |]; reflexivity.
Qed.

Lemma trim_ends (s : string) (c : ascii) :
  head_char (trim s) = Some c \/ last_char (trim s) = Some c -> is_white_space c = false.
Proof.
  unfold trim. intros [H | H]; [| eapply trimEnd_last; eassumption].
  destruct (trimStart s) as [| d r] eqn:Es; [discriminate |].
  assert (Hd : is_white_space d = false).
  { apply (trimStart_head s). rewrite Es. reflexivity. }
  rewrite (trimEnd_head (String d r) d eq_refl Hd) in H.
  injection H as <-. assumption.
Qed.

#[local] Arguments String.append : simpl nomatch.

(** What [trim] removes is white space: the string is its trimmed form
    between a leading and a trailing run of white space. *)
Lemma trimStart_split (s : string) :
  exists lead, s = lead +:+ trimStart s /\ Claims.all_white_space lead = true.
Proof.
  induction s as [| c r [lead [IH Hlead]]]; [exists EmptyString; split; reflexivity |].
  cbn [trimStart]. destruct (is_white_space c) eqn:E.
  - exists (String c lead). split.
    + cbn [String.append]. rewrite <- IH. reflexivity.
    + cbn [Claims.all_white_space]. rewrite E, Hlead. reflexivity.
  - exists EmptyString. split; reflexivity.
Qed.

Lemma trimEnd_split (s : string) :
  exists trail, s = trimEnd s +:+ trail /\ Claims.all_white_space trail = true.
Proof.
  induction s as [| c r [trail [IH Htrail]]]; [exists EmptyString; split; reflexivity |].
  cbn [trimEnd]. destruct (trimEnd r) as [| d r'] eqn:Er.
  - cbn [String.append] in IH. subst trail.
    destruct (is_white_space c) eqn:E.
    + exists (String c r). split; [reflexivity |].
      cbn [Claims.all_white_space]. rewrite E, Htrail. reflexivity.
    + exists r. split; [reflexivity | exact Htrail].
  - exists trail. split; [| exact Htrail].
    cbn [String.append] in *. rewrite IH at 1. reflexivity.
Qed.

Lemma trim_trimmed_of (w : string) : Claims.trimmed_of w (trim w).
Proof.
  split; [| apply trim_ends].
  destruct (trimStart_split w) as [lead [Hw Hlead]].
  destruct (trimEnd_split (trimStart w)) as [trail [Ht Htrail]].
  exists lead, trail. split; [| split; assumption].
  unfold trim. rewrite <- Ht. exact Hw.
Qed.

Lemma all_white_space_app (a b : string) :
  Claims.all_white_space (a +:+ b) = true
  -> Claims.all_white_space a = true /\ Claims.all_white_space b = true.
Proof.
  induction a as [| c a IH]; cbn [String.append Claims.all_white_space]; [auto |].
  intros H. apply andb_true_iff in H as [Hc H]. destruct (IH H) as [Ha Hb].
  rewrite Hc, Ha. auto.
Qed.

Lemma all_white_space_last (s : string) (c : ascii) :
  Claims.all_white_space s = true -> last_char s = Some c -> is_white_space c = true.
Proof.
  induction s as [| d r IH]; [discriminate |].
  cbn [Claims.all_white_space]. intros H. apply andb_true_iff in H as [Hd Hr].
  destruct r as [| e r']; [intros [= <-]; exact Hd |].
  intros Hl. apply IH; [exact Hr | exact Hl].
Qed.

Lemma last_char_nonempty (a : string) :
  a <> EmptyString -> exists c, last_char a = Some c.
Proof.
  induction a as [| d r IH]; [contradiction |]. intros _.
  destruct r as [| e r']; [exists d; reflexivity |].
  destruct IH as [c Hc]; [discriminate |]. exists c. exact Hc.
Qed.

(** A string with no white space at its end that, followed by white
    space, is white space throughout is empty. *)
Lemma no_trailing_space_only (t trail : string) :
  (forall c, last_char t = Some c -> is_white_space c = false) ->
  Claims.all_white_space (t +:+ trail) = true -> t = EmptyString.
Proof.
  intros Hlast Hall. destruct (all_white_space_app t trail Hall) as [Ht _].
  destruct t as [| d r]; [reflexivity |].
  destruct (last_char_nonempty (String d r)) as [c Hc]; [discriminate |].
  pose proof (all_white_space_last _ c Ht Hc) as Hws.
  rewrite (Hlast c Hc) in Hws. discriminate.
Qed.

Lemma trimmed_tail_unique (t1 t2 trail1 trail2 : string) :
  (forall c, last_char t1 = Some c -> is_white_space c = false) ->
  (forall c, last_char t2 = Some c -> is_white_space c = false) ->
  Claims.all_white_space trail1 = true -> Claims.all_white_space trail2 = true ->
  t1 +:+ trail1 = t2 +:+ trail2 -> t1 = t2.
Proof.
  revert t2. induction t1 as [| d r IH]; intros t2 H1 H2 Hw1 Hw2 Heq.
  - cbn [String.append] in Heq. symmetry.
    apply (no_trailing_space_only t2 trail2 H2). rewrite <- Heq. exact Hw1.
  - destruct t2 as [| e r2].
    + cbn [String.append] in Heq.
      apply (no_trailing_space_only (String d r) trail1 H1). cbn [String.append].
      rewrite Heq. exact Hw2.
    + cbn [String.append] in Heq. injection Heq as <- Heq. f_equal.
      apply IH; try assumption.
      * intros c Hc. apply H1. destruct r; [discriminate | exact Hc].
      * intros c Hc. apply H2. destruct r2; [discriminate | exact Hc].
Qed.

(** The trimmed form of a string is unique: [trimmed_of] determines
    it. *)
Lemma trimmed_of_unique (w t1 t2 : string) :
  Claims.trimmed_of w t1 -> Claims.trimmed_of w t2 -> t1 = t2.
Proof.
  intros [[lead1 [trail1 [Hw1 [Hl1 Hr1]]]] He1] [[lead2 [trail2 [Hw2 [Hl2 Hr2]]]] He2].
  subst w. revert lead2 Hw2 Hl2.
  induction lead1 as [| c lead1 IH]; intros lead2 Hw2 Hl2.
  - destruct lead2 as [| c lead2].
    + cbn [String.append] in Hw2.
      apply (trimmed_tail_unique t1 t2 trail1 trail2); auto.
    + cbn [String.append Claims.all_white_space] in Hw2, Hl2.
      apply andb_true_iff in Hl2 as [Hc Hl2].
      assert (Ht1 : t1 = EmptyString).
      { destruct t1 as [| d r]; [reflexivity |].
        cbn [String.append] in Hw2. injection Hw2 as -> _.
        rewrite (He1 c) in Hc; [discriminate | left; reflexivity]. }
      subst t1. cbn [String.append] in Hw2. symmetry.
      apply (no_trailing_space_only t2 trail2); [auto |].
      assert (Hall : Claims.all_white_space (String c (lead2 +:+ t2 +:+ trail2)) = true)
        by (rewrite <- Hw2; exact Hr1).
      cbn [Claims.all_white_space] in Hall. apply andb_true_iff in Hall as [_ Hall].
      apply all_white_space_app in Hall as [_ Hall]. exact Hall.
  - cbn [Claims.all_white_space] in Hl1. apply andb_true_iff in Hl1 as [Hc Hl1].
    destruct lead2 as [| c2 lead2].
    + cbn [String.append] in Hw2.
      assert (Ht2 : t2 = EmptyString).
      { destruct t2 as [| d r]; [reflexivity |].
        cbn [String.append] in Hw2. injection Hw2 as <- _.
        rewrite (He2 c) in Hc; [discriminate | left; reflexivity]. }
      subst t2. cbn [String.append] in Hw2.
      apply (no_trailing_space_only t1 trail1); [auto |].
      assert (Hall : Claims.all_white_space (String c (lead1 +:+ t1 +:+ trail1)) = true)
        by (rewrite Hw2; exact Hr2).
      cbn [Claims.all_white_space] in Hall. apply andb_true_iff in Hall as [_ Hall].
      apply all_white_space_app in Hall as [_ Hall]. exact Hall.
    + cbn [String.append Claims.all_white_space] in Hw2, Hl2.
      apply andb_true_iff in Hl2 as [_ Hl2]. injection Hw2 as _ Hw2.
      apply (IH Hl1 lead2 Hw2 Hl2).
Qed.

End JsFacts.

(** ** Scope discovery *)

Module DiscoveryFacts.
Import Js JsFacts Discovery.

(** Every step of a project scan is a composition of [logCall] and
    [addIfUnvisited] for the scanned project: a property closed under
    these two holds after the body of the [try], thrown or not. *)
Section Closure.
Variable P : ScanState -> Prop.
Variable projectId : string.
Hypothesis P_log : forall c st,
  call_scope c = "projects/" +:+ projectId -> P st -> P (logCall c st).
Hypothesis P_add : forall d r st, P st -> P (addIfUnvisited projectId d r st).

Lemma P_addLink d r st : P st -> P (addLink projectId d r st).
Proof. unfold addLink. destruct (negb _); auto. Qed.

Lemma P_addLinkNic d r st : P st -> P (addLinkNic projectId d r st).
Proof. unfold addLinkNic. destruct (_ && _)%bool; auto. Qed.

Lemma P_foldl {A : Type} (f : ScanState -> A -> ScanState) (xs : list A) :
  (forall st x, P st -> P (f st x)) -> forall st, P st -> P (foldl f st xs).
Proof. intros Hf. induction xs as [| x xs IH]; simpl; auto. Qed.

Lemma P_forOf {A : Type} (body : A -> ScanState -> ScanState * option string) (xs : list A) :
  (forall x st, P st -> P (fst (body x st))) ->
  forall st, P st -> P (fst (forOf body xs st)).
Proof.
  intros Hb. induction xs as [| x xs IH]; simpl; intros st Hst; [assumption |].
  specialize (Hb x st Hst). destruct (body x st) as [st' [m |]]; simpl in *; auto.
Qed.

Lemma P_forwardingRuleUri res st uri : P st -> P (forwardingRuleUri projectId res st uri).
Proof.
  intros Hst. unfold forwardingRuleUri.
  destruct (match_project uri); [apply P_addLink |]; assumption.
Qed.

Lemma P_nicUri inst st uri : P st -> P (nicUri projectId inst st uri).
Proof.
  intros Hst. unfold nicUri.
  destruct (match_project uri); [apply P_addLinkNic |]; assumption.
Qed.

Lemma P_stepXpnHost d st : P st -> P (stepXpnHost d projectId st).
Proof.
  intros Hst. unfold stepXpnHost.
  assert (H : P (logCall (GetXpnHost projectId) st)) by (apply P_log; [reflexivity | assumption]).
  destruct (getXpnHost d) as [[x |] | m]; try assumption.
  destruct (truthy_str _); [apply P_addLink |]; assumption.
Qed.

Lemma P_stepListUsable d st : P st -> P (stepListUsable d projectId st).
Proof.
  intros Hst. unfold stepListUsable. apply P_foldl.
  - intros st' x H. unfold usableSubnetBody.
    destruct (truthy_str _); [| assumption].
    destruct (match_project _); [apply P_addLink |]; assumption.
  - apply P_log; [reflexivity | assumption].
Qed.

Lemma P_resourceBody st res : P st -> P (resourceBody projectId st res).
Proof.
  intros Hst. unfold resourceBody.
  destruct (has_type _ res); [assumption |].
  destruct (has_type _ res); [| assumption].
  apply P_foldl; [| assumption]. intros. apply P_forwardingRuleUri. assumption.
Qed.

Lemma P_instanceBody inst st : P st -> P (fst (instanceBody projectId inst st)).
Proof.
  intros Hst. unfold instanceBody.
  destruct (additionalAttributes inst) as [a |]; [| assumption].
  destruct (truthy a); [| assumption].
  destruct (prop a "networkInterfaces") as [ni |]; [| assumption].
  destruct (truthy ni); [| assumption].
  apply P_forOf; [| assumption].
  intros nic st' H. unfold nicBody.
  destruct nic; simpl; try assumption;
    (apply P_foldl; [intros; apply P_nicUri |]; assumption).
Qed.

Lemma P_networkBody st net : P st -> P (networkBody projectId st net).
Proof.
  intros Hst. unfold networkBody.
  destruct (additionalAttributes net) as [a |]; [| assumption].
  destruct (truthy a); [| assumption].
  apply P_foldl; [| assumption]. intros. apply P_addLink. assumption.
Qed.

Lemma P_interconnectBody st ic : P st -> P (interconnectBody projectId st ic).
Proof.
  intros Hst. unfold interconnectBody.
  apply P_foldl; [| assumption]. intros. apply P_addLink. assumption.
Qed.

Lemma P_scanBody d st : P st -> P (fst (scanBody d projectId st)).
Proof.
  intros Hst. unfold scanBody.
  pose proof (P_stepListUsable d _ (P_stepXpnHost d _ Hst)) as H1.
  set (st1 := stepListUsable d projectId _) in *.
  assert (H2 : P (logCall (SearchAllResources ("projects/" +:+ projectId) networkAssetTypes 500) st1))
    by (apply P_log; [reflexivity | assumption]).
  destruct (searchResources d) as [resources | m]; [| assumption].
  pose proof (P_foldl _ resources P_resourceBody _ H2) as H3.
  set (st3 := foldl _ _ resources) in *.
  assert (H4 : P (logCall (SearchAllResources ("projects/" +:+ projectId)
                             ["compute.googleapis.com/Instance"] 100) st3))
    by (apply P_log; [reflexivity | assumption]).
  destruct (searchInstances d) as [instances | m]; [| assumption].
  pose proof (P_forOf _ instances P_instanceBody _ H4) as H5.
  destruct (forOf _ instances _) as [st5 [m |]]; simpl in *; [assumption |].
  apply P_foldl; [intros; apply P_interconnectBody; assumption |].
  apply P_foldl; [intros; apply P_networkBody; assumption | assumption].
Qed.
End Closure.

Lemma targets_snoc_link (g : list GraphEntry) (s t r : string) :
  targets (g ++ [Link s t r]) = (targets g ++ [t])%list.
Proof. unfold targets. rewrite omap_app. reflexivity. Qed.

Lemma targets_snoc_error (g : list GraphEntry) (s m : string) :
  targets (g ++ [ScanError s m]) = targets g.
Proof. unfold targets. rewrite omap_app. simpl. apply app_nil_r. Qed.

Lemma elem_of_targets (t : string) (g : list GraphEntry) :
  t ∈ targets g <-> exists s r, Link s t r ∈ g.
Proof.
  unfold targets. rewrite list_elem_of_omap. split.
  - intros [[s t' r | s m] [Hin Ht]]; simpl in Ht; [| discriminate].
    injection Ht as ->. eauto.
  - intros [s [r Hin]]. exists (Link s t r). auto.
Qed.

Section Invariant.
Variable roots : list string.

Lemma invariant_initial : ScanInvariant roots (initialState roots).
Proof.
  split; simpl.
  - symmetry. apply app_nil_r.
  - apply NoDup_set_from.
  - intros e He. inversion He.
  - intros i s t r H. rewrite lookup_nil in H. discriminate.
Qed.

Lemma invariant_logCall c st : ScanInvariant roots st -> ScanInvariant roots (logCall c st).
Proof. intros [H1 H2 H3 H4]. split; simpl; assumption. Qed.

Lemma invariant_logScanning p st :
  ScanInvariant roots st -> ScanInvariant roots (logScanning p st).
Proof. intros [H1 H2 H3 H4]. split; simpl; assumption. Qed.

Lemma invariant_pushError p m st :
  ScanInvariant roots st -> ScanInvariant roots (pushError p m st).
Proof.
  intros [H1 H2 H3 H4]. split; simpl.
  - rewrite targets_snoc_error. assumption.
  - assumption.
  - intros e He. apply elem_of_app in He as [He | He]; [auto |].
    apply list_elem_of_singleton in He. subst. left. reflexivity.
  - intros i s t r Hi Ht Hfirst. apply elem_of_app. left. eauto.
Qed.

Lemma invariant_addIfUnvisited p d r st :
  ScanInvariant roots st -> ScanInvariant roots (addIfUnvisited p d r st).
Proof.
  intros [H1 H2 H3 H4]. unfold addIfUnvisited.
  destruct (set_has d (visitedProjects st)) eqn:Ehas; simpl.
  - (* already visited: nothing is pushed *)
    apply set_has_true in Ehas. split; simpl; try assumption.
    + intros e He. destruct (H3 e He) as [Hn | Hd]; [auto |].
      right. apply elem_of_app. auto.
    + intros i s t r' Hi Ht Hfirst.
      destruct (decide (i < length (detected st))%nat) as [Hlt | Hge].
      * rewrite lookup_app_l in Hi by assumption.
        apply (H4 i s t r' Hi Ht). intros j e Hj Hje.
        apply (Hfirst j e Hj). rewrite lookup_app_l by lia. assumption.
      * exfalso. rewrite lookup_app_r in Hi by lia.
        apply list_lookup_singleton_Some in Hi as [Hi0 Heq].
        injection Heq as <- <- <-.
        rewrite H1 in Ehas. apply elem_of_app in Ehas as [Hroot | Htgt].
        -- apply Ht. apply elem_of_set_from. assumption.
        -- apply elem_of_targets in Htgt as [s' [r'' Hin]].
           destruct (H3 _ Hin) as [Hn | Hdet]; [discriminate |].
           apply list_elem_of_lookup in Hdet as [j Hj].
           apply (Hfirst j (Link s' d r'')); [| | reflexivity].
           ++ apply lookup_lt_Some in Hj. lia.
           ++ rewrite lookup_app_l; [assumption | eapply lookup_lt_Some; eassumption].
  - (* first visit: the project and the link are added *)
    apply set_has_false in Ehas. split; simpl.
    + rewrite targets_snoc_link, app_assoc, <- H1.
      unfold set_add. apply set_has_false in Ehas. rewrite Ehas. reflexivity.
    + apply NoDup_set_add. assumption.
    + intros e He. apply elem_of_app in He as [He | He].
      * destruct (H3 e He) as [Hn | Hd]; [auto |]. right. apply elem_of_app. auto.
      * right. apply elem_of_app. auto.
    + intros i s t r' Hi Ht Hfirst. apply elem_of_app.
      destruct (decide (i < length (detected st))%nat) as [Hlt | Hge].
      * left. rewrite lookup_app_l in Hi by assumption.
        apply (H4 i s t r' Hi Ht). intros j e Hj Hje.
        apply (Hfirst j e Hj). rewrite lookup_app_l by lia. assumption.
      * right. rewrite lookup_app_r in Hi by lia.
        apply list_lookup_singleton_Some in Hi as [_ Heq]. rewrite Heq. left.
Qed.

Lemma invariant_scanProject inv st p :
  ScanInvariant roots st -> ScanInvariant roots (scanProject inv st p).
Proof.
  intros Hst. unfold scanProject.
  pose proof (P_scanBody (ScanInvariant roots) p
                (fun c st _ => invariant_logCall c st)
                (invariant_addIfUnvisited p)
                (inv p) _ (invariant_logScanning p st Hst)) as H.
  destruct (scanBody _ _ _) as [st' [m |]]; simpl in H; [| assumption].
  apply invariant_pushError. assumption.
Qed.

Lemma invariant_foldl inv ps st :
  ScanInvariant roots st -> ScanInvariant roots (foldl (scanProject inv) st ps).
Proof.
  revert st. induction ps as [| p ps IH]; simpl; intros st Hst; [assumption |].
  apply IH, invariant_scanProject, Hst.
Qed.

Lemma invariant_scanAll inv : ScanInvariant roots (scanAll inv roots).
Proof. apply invariant_foldl, invariant_initial. Qed.
End Invariant.

(** The loop header announces the scanned project, and nothing in the
    body touches that log. *)
Lemma scanning_scanProject inv st p :
  scanning (scanProject inv st p) = (scanning st ++ [p])%list.
Proof.
  unfold scanProject.
  pose proof (P_scanBody (fun st' => scanning st' = (scanning st ++ [p])%list) p
                (fun c st' _ H => H)
                (fun d r st' H => ltac:(unfold addIfUnvisited; destruct (negb _); exact H))
                (inv p) (logScanning p st) eq_refl) as H.
  destruct (scanBody _ _ _) as [st' [m |]]; simpl in *; assumption.
Qed.

Lemma scanning_foldl inv ps st :
  scanning (foldl (scanProject inv) st ps) = (scanning st ++ ps)%list.
Proof.
  revert st. induction ps as [| p ps IH]; simpl; intros st.
  - symmetry. apply app_nil_r.
  - rewrite IH, scanning_scanProject, <- app_assoc. reflexivity.
Qed.

(** Every request of a project scan names that project. *)
Lemma calls_scanProject inv st p (Q : ApiCall -> Prop) :
  (forall c, call_scope c = "projects/" +:+ p -> Q c) ->
  Forall Q (calls st) -> Forall Q (calls (scanProject inv st p)).
Proof.
  intros HQ Hst. unfold scanProject.
  assert (H : Forall Q (calls (fst (scanBody (inv p) p (logScanning p st))))).
  { apply (P_scanBody (fun st' => Forall Q (calls st')) p).
    - intros c st' Hc H. simpl. apply Forall_app. split; [assumption |].
      constructor; [auto | constructor].
    - intros d r st' H. unfold addIfUnvisited. destruct (negb _); exact H.
    - exact Hst. }
  destruct (scanBody _ _ _) as [st' [m |]]; simpl in *; assumption.
Qed.

Lemma calls_foldl inv ps st (Q : ApiCall -> Prop) :
  (forall c p, p ∈ ps -> call_scope c = "projects/" +:+ p -> Q c) ->
  Forall Q (calls st) -> Forall Q (calls (foldl (scanProject inv) st ps)).
Proof.
  revert st. induction ps as [| p ps IH]; simpl; intros st HQ Hst; [assumption |].
  apply IH.
  - intros c q Hq. apply HQ. right. assumption.
  - apply calls_scanProject; [| assumption]. intros c. apply HQ. left.
Qed.

(** No link of a run targets one of its roots. *)
Lemma no_root_target inv roots s t r :
  Link s t r ∈ projectGraph (scanAll inv roots) -> t ∉ roots.
Proof.
  intros Hin Hroot.
  destruct (invariant_scanAll roots inv) as [Hv Hnd _ _].
  rewrite Hv in Hnd. apply NoDup_app in Hnd as [_ [Hdisj _]].
  apply (Hdisj t).
  - apply elem_of_set_from. assumption.
  - apply elem_of_targets. eauto.
Qed.

(** C9. For every inventory and every form of the root list: each root
    is in the returned scope, the target of each returned link is in
    the returned scope, the projects scanned are exactly the roots in
    input order, and every inventory request made is scoped to a root.
    The run is a structural recursion over the root list, so it ends. *)
Theorem discovery_covers_roots_and_targets (inv : Inventory) (input : RootInput) :
  let res := detectAgentScope inv input in
  let st := scanAll inv (startProjects input) in
  (forall p, p ∈ startProjects input -> p ∈ detectedScope res) /\
  (forall s t r, Link s t r ∈ relationships res -> t ∈ detectedScope res) /\
  scanning st = startProjects input /\
  (forall c, c ∈ calls st ->
     exists p, p ∈ startProjects input /\ call_scope c = "projects/" +:+ p).
Proof.
  simpl. set (roots := startProjects input).
  destruct (invariant_scanAll roots inv) as [Hv Hnd Hp Hf].
  repeat split.
  - intros p Hp'. rewrite Hv. apply elem_of_app. left. apply elem_of_set_from. assumption.
  - intros s t r Hin. rewrite Hv. apply elem_of_app. right.
    apply elem_of_targets. eauto.
  - unfold scanAll. rewrite scanning_foldl. reflexivity.
  - apply Forall_forall. unfold scanAll. apply calls_foldl; [eauto | constructor].
Qed.

Lemma discovery_covers_roots_and_targets_witness :
  "proj-a" ∈ detectedScope (detectAgentScope Samples.sharedVpcInventory (InArray ["proj-a"]))
  /\ "proj-b" ∈ detectedScope (detectAgentScope Samples.sharedVpcInventory (InArray ["proj-a"])).
Proof.
  destruct (discovery_covers_roots_and_targets Samples.sharedVpcInventory (InArray ["proj-a"]))
    as [Hroots [Htargets _]].
  split.
  - apply Hroots. left.
  - apply (Htargets "proj-a" "proj-b"
             "Project is a Service Project attached to Host Project proj-b").
    vm_compute. left.
Defined.




(** C4. A network of [proj-a] peered with a network of the deny-listed
    project yields an edge whose target is that project. *)
Theorem deny_listed_target_from_peering :
  relationships (detectAgentScope Samples.peeredInventory (InArray ["proj-a"]))
  = [Link "proj-a" "google-cloud-clients"
       "Network vpc-1 has peering/link to google-cloud-clients"].
Proof. vm_compute. reflexivity. Qed.

Lemma deny_list_not_respected :
  ~ Claims.deny_list_respected
      (detectAgentScope Samples.peeredInventory (InArray ["proj-a"])).
Proof.
  intros H.
  apply (H "proj-a" "Network vpc-1 has peering/link to google-cloud-clients").
  vm_compute. left.
Qed.

(** The same reference on the interface of an instance is filtered. *)
Lemma deny_listed_target_filtered_on_instance :
  relationships (detectAgentScope Samples.instanceInventory (InArray ["proj-a"])) = [].
Proof. vm_compute. reflexivity. Qed.

(** C10. The root list is taken as it is when it is an array; a string
    is cut at its commas (the pieces hold no comma and joined by commas
    give the string back) and each piece is trimmed: the element parsed
    from a piece is that piece without the white space before and after
    it, and has no white space left at either end; any other value
    scans nothing, makes no request and returns an empty scope and no
    relationships. *)
Theorem root_input_forms (inv : Inventory) :
  (forall l, startProjects (InArray l) = l) /\
  (forall text, exists pieces,
      join "," pieces = text /\ pieces <> [] /\
      (forall w, w ∈ pieces -> includes_char "," w = false) /\
      startProjects (InString text) = List.map trim pieces /\
      Forall2 Claims.trimmed_of pieces (startProjects (InString text)) /\
      (forall w c, w ∈ startProjects (InString text) ->
         head_char w = Some c \/ last_char w = Some c -> is_white_space c = false) /\
      detectAgentScope inv (InString text) = detectAgentScope inv (InArray (List.map trim pieces))) /\
  detectAgentScope inv InOther = {| detectedScope := []; relationships := [] |} /\
  scanning (scanAll inv (startProjects InOther)) = [] /\
  calls (scanAll inv (startProjects InOther)) = [].
Proof.
  split; [reflexivity |]. split; [| repeat split].
  intros text. exists (split_comma text). repeat split.
  - apply join_split_comma.
  - destruct (split_comma_cons text) as [w [ws ->]]. discriminate.
  - apply split_comma_no_comma.
  - cbn [startProjects]. induction (split_comma text) as [| w ws IH]; cbn [List.map].
    + constructor.
    + constructor; [apply trim_trimmed_of | exact IH].
  - intros w c Hw Hc. simpl in Hw. apply list_elem_of_In, in_map_iff in Hw as [w0 [<- _]].
    eapply trim_ends. eassumption.
Qed.

Lemma root_input_forms_witness :
  (exists pieces,
      join "," pieces = " proj-a , proj-c"
      /\ Forall2 Claims.trimmed_of pieces ["proj-a"; "proj-c"])
  /\ detectAgentScope Samples.sharedVpcInventory InOther
     = {| detectedScope := []; relationships := [] |}.
Proof.
  destruct (root_input_forms Samples.sharedVpcInventory) as [_ [Hstr [Hother _]]].
  split; [| exact Hother].
  destruct (Hstr " proj-a , proj-c") as [pieces [Hjoin [_ [_ [_ [Htrim _]]]]]].
  exists pieces. split; [exact Hjoin | exact Htrim].
Defined.

End DiscoveryFacts.

(** ** Flow-log correlation *)

Module FlowLogsFacts.
Import Js JsFacts FlowLogs.

(** *** The sort *)

Lemma elem_of_insert_desc (x y : FlowLogRecord) (l : list FlowLogRecord) :
  y ∈ insert_desc x l <-> y = x \/ y ∈ l.
Proof.
  induction l as [| z l IH]; simpl.
  - rewrite list_elem_of_singleton, elem_of_nil. tauto.
  - destruct (time z - time x <=? 0); rewrite !elem_of_cons; [tauto |].
    rewrite IH. tauto.
Qed.

Lemma elem_of_sort_desc (y : FlowLogRecord) (l : list FlowLogRecord) :
  y ∈ sort_desc l <-> y ∈ l.
Proof.
  induction l as [| x l IH]; simpl; [tauto |].
  rewrite elem_of_insert_desc, elem_of_cons, IH. tauto.
Qed.

Lemma length_insert_desc (x : FlowLogRecord) (l : list FlowLogRecord) :
  length (insert_desc x l) = S (length l).
Proof.
  induction l as [| z l IH]; simpl; [reflexivity |].
  destruct (time z - time x <=? 0); simpl; [reflexivity | rewrite IH; reflexivity].
Qed.

Lemma length_sort_desc (l : list FlowLogRecord) : length (sort_desc l) = length l.
Proof.
  induction l as [| x l IH]; simpl; [reflexivity |].
  rewrite length_insert_desc, IH. reflexivity.
Qed.

Lemma insert_desc_sorted (x : FlowLogRecord) (l : list FlowLogRecord) :
  Claims.sorted_desc l -> Claims.sorted_desc (insert_desc x l).
Proof.
  induction l as [| z l IH]; simpl; intros Hs.
  - split; [| exact I]. intros y Hy. inversion Hy.
  - destruct Hs as [Hz Hl]. destruct (time z - time x <=? 0) eqn:E.
    + apply Z.leb_le in E. simpl. split; [| split; assumption].
      intros y Hy. apply elem_of_cons in Hy as [-> | Hy]; [lia |].
      specialize (Hz y Hy). lia.
    + apply Z.leb_gt in E. simpl. split; [| apply IH; assumption].
      intros y Hy. apply elem_of_insert_desc in Hy as [-> | Hy]; [lia | auto].
Qed.

Lemma sort_desc_sorted (l : list FlowLogRecord) : Claims.sorted_desc (sort_desc l).
Proof.
  induction l as [| x l IH]; simpl; [exact I | apply insert_desc_sorted, IH].
Qed.

Lemma elem_of_take_full {A : Type} (x : A) (n : nat) (l : list A) : x ∈ take n l -> x ∈ l.
Proof.
  intros H. apply elem_of_take in H as [i [Hi _]].
  apply list_elem_of_lookup. eauto.
Qed.

Lemma take_sorted (n : nat) (l : list FlowLogRecord) :
  Claims.sorted_desc l -> Claims.sorted_desc (take n l).
Proof.
  revert n. induction l as [| x l IH]; intros [| n]; simpl; try tauto.
  intros [Hx Hl]. split; [| apply IH; assumption].
  intros y Hy. apply Hx. eapply elem_of_take_full. eassumption.
Qed.

(** The sort is stable: records with equal timestamps keep their order. *)
Lemma insert_desc_front (x : FlowLogRecord) (l : list FlowLogRecord) :
  (forall y, y ∈ l -> time y <= time x) -> insert_desc x l = x :: l.
Proof.
  destruct l as [| z l]; simpl; [reflexivity |].
  intros H. assert (Hz : time z <= time x) by (apply H; left).
  destruct (time z - time x <=? 0) eqn:E; [reflexivity |].
  apply Z.leb_gt in E. lia.
Qed.

Lemma sort_desc_fixes_sorted (l : list FlowLogRecord) :
  Claims.sorted_desc l -> sort_desc l = l.
Proof.
  induction l as [| x l IH]; simpl; [reflexivity |].
  intros [Hx Hl]. rewrite IH by assumption. apply insert_desc_front. assumption.
Qed.

(** *** The slice *)

Lemma slice0_take {A : Type} (l : list A) (e : Z) : exists n, slice0 l e = take n l.
Proof. unfold slice0. eauto. Qed.

Lemma slice0_length_le {A : Type} (l : list A) (e : Z) :
  0 <= e -> Z.of_nat (length (slice0 l e)) <= e.
Proof.
  intros He. unfold slice0. destruct (e <? 0) eqn:E; [apply Z.ltb_lt in E; lia |].
  rewrite length_take. lia.
Qed.

Lemma slice0_length_negative {A : Type} (l : list A) (e : Z) :
  e < 0 -> Z.of_nat (length (slice0 l e)) = Z.max (Z.of_nat (length l) + e) 0.
Proof.
  intros He. unfold slice0. apply Z.ltb_lt in He. rewrite He.
  rewrite length_take. lia.
Qed.

(** *** The loop *)

Section Loop.
Variable bq : BigQuery.
Variable p : Params.

Lemma loop_unrolled (ps : list string) (st : LoopState) :
  let st' := foldl (queryProject bq (sourceIp p) (destIp p) (limit_or_default p)
                      (hoursAgo_or_default p)) st ps in
  queries st' = (queries st ++ List.map (optionsFor p) ps)%list /\
  errors st' = (errors st ++ errors_from bq p (length (queries st)) ps)%list /\
  results st' = (results st ++ results_from bq p (length (queries st)) ps)%list.
Proof.
  revert st. induction ps as [| x ps IH]; intros st; simpl.
  - rewrite !app_nil_r. auto.
  - destruct (IH (queryProject bq (sourceIp p) (destIp p) (limit_or_default p)
                    (hoursAgo_or_default p) st x)) as [Hq [He Hr]].
    simpl in *. rewrite Hq, He, Hr. clear Hq He Hr IH.
    unfold queryProject. fold (optionsFor p x).
    destruct (bq (length (queries st)) (optionsFor p x)) as [rows | m]; simpl;
      rewrite length_app, Nat.add_1_r, <- !app_assoc; simpl.
    + repeat split. destruct rows; simpl; [reflexivity |].
      rewrite <- app_assoc. reflexivity.
    + auto.
Qed.

Lemma runQueries_unrolled :
  queries (runQueries bq p) = List.map (optionsFor p) (uniqueProjects p) /\
  errors (runQueries bq p) = errors_from bq p 0 (uniqueProjects p) /\
  results (runQueries bq p) = results_from bq p 0 (uniqueProjects p).
Proof. apply (loop_unrolled (uniqueProjects p) {| results := []; errors := []; queries := [] |}). Qed.

Lemma elem_of_errors_from (e : ErrorEntry) (n : nat) (ps : list string) :
  e ∈ errors_from bq p n ps <->
  exists i, ps !! i = Some (projectId e) /\
            bq (n + i)%nat (optionsFor p (projectId e)) = Rejected (error e).
Proof.
  revert n. induction ps as [| x ps IH]; intros n; simpl.
  - rewrite elem_of_nil. split; [tauto |]. intros [i [H _]]. rewrite lookup_nil in H. discriminate.
  - assert (Hrest : e ∈ errors_from bq p (S n) ps <->
                    exists i, (x :: ps) !! S i = Some (projectId e) /\
                              bq (n + S i)%nat (optionsFor p (projectId e)) = Rejected (error e)).
    { rewrite IH. split; intros [i [H1 H2]]; exists i; simpl in *;
        (split; [assumption |]); [rewrite Nat.add_succ_r | rewrite Nat.add_succ_r in H2];
        assumption. }
    destruct (bq n (optionsFor p x)) as [rows | m] eqn:E.
    + rewrite Hrest. split.
      * intros [i H]. exists (S i). exact H.
      * intros [[| i] [H1 H2]]; [| eauto].
        simpl in H1. injection H1 as ->. rewrite Nat.add_0_r, E in H2. discriminate.
    + rewrite elem_of_cons, Hrest. split.
      * intros [-> | [i H]]; [| exists (S i); exact H].
        exists 0%nat. simpl. rewrite Nat.add_0_r. auto.
      * intros [[| i] [H1 H2]]; [| eauto].
        left. simpl in H1. injection H1 as ->. rewrite Nat.add_0_r, E in H2.
        injection H2 as ->. destruct e; reflexivity.
Qed.

Lemma elem_of_results_from (r : FlowLogRecord) (n : nat) (ps : list string) :
  r ∈ results_from bq p n ps ->
  exists i rows, ps !! i = Some (source_dataset_project r) /\
                 bq (n + i)%nat (optionsFor p (source_dataset_project r)) = Resolved rows /\
                 row r ∈ rows.
Proof.
  revert n. induction ps as [| x ps IH]; intros n; simpl.
  - intros H. inversion H.
  - assert (Hrest : r ∈ results_from bq p (S n) ps ->
              exists i rows, (x :: ps) !! i = Some (source_dataset_project r) /\
                 bq (n + i)%nat (optionsFor p (source_dataset_project r)) = Resolved rows /\
                 row r ∈ rows).
    { intros H. destruct (IH _ H) as [i [rows [H1 [H2 H3]]]].
      exists (S i), rows. rewrite Nat.add_succ_r. auto. }
    destruct (bq n (optionsFor p x)) as [rows | m] eqn:E; [| assumption].
    intros H. apply elem_of_app in H as [H | H]; [| auto].
    apply list_elem_of_In, in_map_iff in H as [r0 [<- Hr0]]. simpl.
    exists 0%nat, rows. rewrite Nat.add_0_r. repeat split; [assumption |].
    apply list_elem_of_In. assumption.
Qed.

Lemma errors_from_sublist (n : nat) (ps : list string) :
  sublist (List.map projectId (errors_from bq p n ps)) ps.
Proof.
  revert n. induction ps as [| x ps IH]; intros n; simpl; [constructor |].
  destruct (bq n (optionsFor p x)); simpl; [apply sublist_cons | apply sublist_skip]; apply IH.
Qed.
End Loop.

Lemma NoDup_uniqueProjects (p : Params) : NoDup (uniqueProjects p).
Proof. apply NoDup_set_from. Qed.

Lemma reported_errors_loop (bq : BigQuery) (p : Params) :
  reported_errors (queryVpcFlowLogs bq p) = errors (runQueries bq p).
Proof.
  unfold reported_errors, queryVpcFlowLogs. simpl.
  destruct (errors (runQueries bq p)); reflexivity.
Qed.

Lemma records_from_loop (bq : BigQuery) (p : Params) (r : FlowLogRecord) :
  r ∈ records (queryVpcFlowLogs bq p) -> r ∈ results (runQueries bq p).
Proof.
  simpl. intros H. destruct (slice0_take (sort_desc (results (runQueries bq p)))
                               (limit_or_default p)) as [n Hn].
  rewrite Hn in H. apply elem_of_take_full in H.
  apply (proj1 (elem_of_sort_desc _ _)) in H. exact H.
Qed.

Lemma records_sorted (bq : BigQuery) (p : Params) :
  Claims.sorted_desc (records (queryVpcFlowLogs bq p)).
Proof.
  simpl. destruct (slice0_take (sort_desc (results (runQueries bq p)))
                     (limit_or_default p)) as [n ->].
  apply take_sorted, sort_desc_sorted.
Qed.

Lemma records_exclude_failed (bq : BigQuery) (p : Params) :
  Claims.no_record_of_failed_project (queryVpcFlowLogs bq p).
Proof.
  intros r e Hr He Heq.
  apply records_from_loop in Hr. rewrite reported_errors_loop in He.
  destruct (runQueries_unrolled bq p) as [_ [Herr Hres]].
  rewrite Hres in Hr. rewrite Herr in He.
  apply elem_of_results_from in Hr as [i [rows [Hi [Hbq _]]]].
  apply elem_of_errors_from in He as [j [Hj Hbq']].
  rewrite Heq in Hi, Hbq.
  assert (i = j) by (eapply NoDup_lookup; eauto using NoDup_uniqueProjects).
  subst j. simpl in *. congruence.
Qed.

Lemma filter_unique_key (l : list ErrorEntry) (x : ErrorEntry) :
  NoDup (List.map projectId l) -> x ∈ l ->
  length (List.filter (fun e => String.eqb (projectId e) (projectId x)) l) = 1%nat.
Proof.
  induction l as [| y l IH]; simpl; intros Hnd Hx; [inversion Hx |].
  apply NoDup_cons in Hnd as [Hy Hnd].
  apply elem_of_cons in Hx as [-> | Hx].
  - rewrite String.eqb_refl. simpl. f_equal.
    assert (Hnone : forall e, e ∈ l -> String.eqb (projectId e) (projectId y) = false).
    { intros e He. apply String.eqb_neq. intros Heq. apply Hy.
      rewrite <- Heq. apply list_elem_of_In, in_map, list_elem_of_In. assumption. }
    clear -Hnone. induction l as [| z l IHl]; simpl; [reflexivity |].
    rewrite (Hnone z) by left. apply IHl. intros e He. apply Hnone. right. assumption.
  - destruct (String.eqb (projectId y) (projectId x)) eqn:E; [| auto].
    exfalso. apply String.eqb_eq in E. apply Hy. rewrite E.
    apply list_elem_of_In, in_map, list_elem_of_In. assumption.
Qed.

(** C6 (as amended). For every outcome of the queries and every limit
    that is not negative (20 when none is given): the records returned
    are in descending order of timestamp, there are at most [limit] of
    them, and none is tagged with a project that has an error entry. *)
Theorem correlated_records_sorted_bounded (bq : BigQuery) (p : Params) :
  0 <= limit_or_default p ->
  let res := queryVpcFlowLogs bq p in
  Claims.sorted_desc (records res) /\
  Claims.within_limit p res /\
  Claims.no_record_of_failed_project res /\
  recordCount res = length (records res).
Proof.
  intros Hlimit. repeat split.
  - apply records_sorted.
  - unfold Claims.within_limit. simpl. apply slice0_length_le. assumption.
  - apply records_exclude_failed.
Qed.

Lemma correlated_records_sorted_bounded_witness :
  let p := Samples.flowParams (Some 5) in
  let res := queryVpcFlowLogs Samples.flowLogTables p in
  Claims.sorted_desc (records res) /\
  Claims.within_limit p res /\
  Claims.no_record_of_failed_project res /\
  recordCount res = length (records res).
Proof.
  apply (correlated_records_sorted_bounded Samples.flowLogTables (Samples.flowParams (Some 5))).
  vm_compute. discriminate.
Defined.

(** With a negative limit the bound cannot hold, whatever the queries
    answer. *)
Lemma negative_limit_never_met (bq : BigQuery) (p : Params) :
  limit_or_default p < 0 -> ~ Claims.within_limit p (queryVpcFlowLogs bq p).
Proof. unfold Claims.within_limit. lia. Qed.

(** C6, the claim as stated, fails for a negative limit: with limit -1
    and every query refused the result holds no record, and 0 is not
    at most -1. *)
Lemma negative_limit_exceeded :
  ~ Claims.within_limit (Samples.flowParams (Some (-1)))
      (queryVpcFlowLogs Samples.limitRefused (Samples.flowParams (Some (-1)))).
Proof. unfold Claims.within_limit. vm_compute. intros H. apply H. reflexivity. Qed.

(** When rows do come back, the slice drops the last one. *)
Lemma negative_limit_drops_last :
  length (records (queryVpcFlowLogs Samples.flowLogTables (Samples.flowParams (Some (-1))))) = 7%nat.
Proof. vm_compute. reflexivity. Qed.

(** C7. Whatever fails, every distinct project of the input is queried
    once, in order of first occurrence.  A project whose query is
    rejected gets one error entry, with its name and the message of the
    rejection, and no other entry with its name; and there is no entry
    without such a rejection. *)
Theorem query_failure_recorded_once (bq : BigQuery) (p : Params) :
  let st := runQueries bq p in
  let res := queryVpcFlowLogs bq p in
  queries st = List.map (optionsFor p) (uniqueProjects p) /\
  (forall x, x ∈ uniqueProjects p <->
             match projects p with
             | Projects l => x ∈ l
             | SingleProject y => x = y
             end) /\
  NoDup (uniqueProjects p) /\
  (forall i proj m,
     uniqueProjects p !! i = Some proj ->
     bq i (optionsFor p proj) = Rejected m ->
     {| projectId := proj; error := m |} ∈ reported_errors res /\
     length (List.filter (fun e => String.eqb (projectId e) proj) (reported_errors res)) = 1%nat) /\
  (forall e, e ∈ reported_errors res ->
     exists i, uniqueProjects p !! i = Some (projectId e) /\
               bq i (optionsFor p (projectId e)) = Rejected (error e)).
Proof.
  cbv zeta. rewrite reported_errors_loop.
  destruct (runQueries_unrolled bq p) as [Hq [Herr _]]. rewrite Herr.
  split; [assumption |]. split; [| split; [apply NoDup_uniqueProjects | split]].
  - intros x. unfold uniqueProjects. rewrite elem_of_set_from.
    destruct (projects p); [reflexivity | apply list_elem_of_singleton].
  - intros i proj m Hi Hbq.
    assert (Hin : {| projectId := proj; error := m |} ∈ errors_from bq p 0 (uniqueProjects p)).
    { apply elem_of_errors_from. exists i. simpl. auto. }
    split; [assumption |].
    apply (filter_unique_key _ {| projectId := proj; error := m |}); [| assumption].
    pose proof (errors_from_sublist bq p 0 (uniqueProjects p)) as Hsub.
    exact (sublist_NoDup _ _ (NoDup_uniqueProjects p) Hsub).
  - intros e He. apply elem_of_errors_from in He. exact He.
Qed.

Lemma query_failure_recorded_once_witness :
  {| projectId := "p1"; error := "Not found: Table p1:flow_logs._Default" |}
  ∈ reported_errors (queryVpcFlowLogs Samples.flowLogTables (Samples.flowParams (Some 5)))
  /\ length (List.filter (fun e => String.eqb (projectId e) "p1")
               (reported_errors (queryVpcFlowLogs Samples.flowLogTables (Samples.flowParams (Some 5)))))
     = 1%nat.
Proof.
  apply (query_failure_recorded_once Samples.flowLogTables (Samples.flowParams (Some 5)))
    with (i := 0%nat); reflexivity.
Defined.

End FlowLogsFacts.

(** ** Reachability probe *)

Module ConnectivityFacts.
Import Js Connectivity.

(** C2 (as amended). In no invocation is more than one delete request
    sent.  When the create request and the evaluation both succeed,
    exactly one is sent, last, for the test that was created, whatever
    the delete request itself answers.  When the create request fails,
    none is sent. *)
Theorem delete_on_completed_evaluation (svc : Service) (now : N) (p : Params) :
  let sent := snd (runConnectivityTest svc now p) in
  let name := ("projects/" +:+ projectId p +:+ "/locations/global")
              +:+ "/connectivityTests/" +:+ "adk-test-" +:+ pretty now in
  (delete_calls sent <= 1)%nat /\
  (createConnectivityTest svc = Resolved tt ->
   (exists response, operation_promise svc = Resolved response) ->
   delete_calls sent = 1%nat /\ last sent = Some (DeleteConnectivityTest name)) /\
  (forall m, createConnectivityTest svc = Rejected m -> delete_calls sent = 0%nat).
Proof.
  cbv zeta. unfold runConnectivityTest, delete_calls.
  destruct (createConnectivityTest svc) as [[] | m1]; cbn [snd].
  - destruct (operation_promise svc) as [response | m2]; cbn [snd].
    + destruct (deleteConnectivityTest svc) as [[] | m3]; cbn;
        (split; [lia |]); (split; [| discriminate]); intros _ _;
        split; reflexivity.
    + cbn. split; [lia |]. split; [| discriminate].
      intros _ [response H]. discriminate.
  - cbn. split; [lia |]. split; [discriminate | reflexivity].
Qed.

Lemma delete_on_completed_evaluation_witness :
  delete_calls (snd (runConnectivityTest Samples.reachable 1700000000000 Samples.probeParams)) = 1%nat
  /\ delete_calls (snd (runConnectivityTest Samples.apiDisabled 1700000000000 Samples.probeParams)) = 0%nat.
Proof.
  split.
  - apply (delete_on_completed_evaluation Samples.reachable 1700000000000 Samples.probeParams).
    + reflexivity.
    + eexists. reflexivity.
  - eapply (delete_on_completed_evaluation Samples.apiDisabled 1700000000000 Samples.probeParams).
    reflexivity.
Defined.

(** C2, the claim as stated, fails: when the create request is refused
    the function returns from its catch block without a delete request. *)
Lemma no_delete_when_create_fails :
  ~ Claims.one_delete_always Samples.apiDisabled 1700000000000 Samples.probeParams.
Proof. unfold Claims.one_delete_always. vm_compute. discriminate. Qed.

End ConnectivityFacts.

(** ** Firewall mutation *)

Module FirewallFacts.
Import Js Firewall.

Lemma request_unknown (uri : option JValue) (p : Params) :
  ~ known_action (action p) -> request uri p = inr ("Unknown action: " +:+ action p).
Proof.
  intros H. unfold request.
  destruct (String.eqb (action p) "create") eqn:E1;
    [apply String.eqb_eq in E1; exfalso; apply H; left; assumption |].
  destruct (String.eqb (action p) "update") eqn:E2;
    [apply String.eqb_eq in E2; exfalso; apply H; right; left; assumption |].
  destruct (String.eqb (action p) "delete") eqn:E3;
    [apply String.eqb_eq in E3; exfalso; apply H; right; right; assumption |].
  reflexivity.
Qed.

Lemma request_is_mutation (uri : option JValue) (p : Params) (call : ApiCall) :
  request uri p = inl call -> is_mutation call = true /\ known_action (action p).
Proof.
  unfold request, known_action.
  destruct (String.eqb (action p) "create") eqn:E1;
    [apply String.eqb_eq in E1; intros [= <-]; auto |].
  destruct (String.eqb (action p) "update") eqn:E2;
    [apply String.eqb_eq in E2; intros [= <-]; auto |].
  destruct (String.eqb (action p) "delete") eqn:E3;
    [apply String.eqb_eq in E3; intros [= <-]; auto |].
  discriminate.
Qed.

(** The statement before the [try] throws exactly for a network that
    is truthy and is neither a string nor an array. *)
Lemma networkUri_throws (p : Params) :
  (exists m, networkUri p = inr m)
  <-> exists n, network p = Some n /\ truthy n = true /\ has_includes n = false.
Proof.
  unfold networkUri. destruct (network p) as [n |].
  - destruct (truthy n) eqn:Et.
    + destruct n as [| b | z | t | items | fields]; cbn [includes_slash has_includes].
      * discriminate.
      * split; [intros _; eexists; eauto | eauto].
      * split; [intros _; eexists; eauto | eauto].
      * split.
        -- destruct (includes_char "/" t); intros [m H]; discriminate.
        -- intros [n [[= <-] [_ H]]]. discriminate.
      * split.
        -- destruct (existsb is_slash_string items); intros [m H]; discriminate.
        -- intros [n [[= <-] [_ H]]]. discriminate.
      * split; [intros _; eexists; eauto | eauto].
    + split; [intros [m H]; discriminate |].
      intros [n' [[= <-] [H _]]]. rewrite Et in H. discriminate.
  - split; [intros [m H]; discriminate | intros [n [H _]]; discriminate].
Qed.

(** C8.  The claim fails where the network is a number: the call of
    [includes] on line 26 stands before the [try], so its TypeError
    reaches the caller instead of an error-status result, whatever the
    client and the action (a known one or not), and no request is
    sent. *)
Theorem network_type_error_escapes (client : Client) (action : string) :
  manageFirewallRule client (Samples.numberedNetwork action)
  = (Throws "network.includes is not a function", []).
Proof. unfold manageFirewallRule. vm_compute. reflexivity. Qed.

End FirewallFacts.

(** ** Agent wiring and sessions *)

Module AgentFacts.
Import Js Agent.

(** *** Sessions *)

Lemma sessionIdAt_inj (now1 now2 : N) : sessionIdAt now1 = sessionIdAt now2 -> now1 = now2.
Proof.
  unfold sessionIdAt. intros H.
  apply (inj (String.app "session-")) in H. apply (inj pretty) in H. exact H.
Qed.

Lemma sessionOf_ensure (store : Sessions) (now : N) :
  default [] (ensureSession (sessionIdAt now) store !! sessionIdAt now) = sessionOf store now.
Proof.
  unfold ensureSession, sessionOf.
  destruct (store !! sessionIdAt now) as [l |] eqn:E.
  - rewrite E. reflexivity.
  - rewrite lookup_insert_eq. reflexivity.
Qed.

(** C3 (as amended). A call of [runAgent] is served by one session, the
    one named after the clock value read at the call: the user message
    and the events of the run are appended to it, and it is created
    empty when no session has that name, so that it then holds no
    earlier turn.  Sessions named after other clock values are left as
    they were, and different clock values name different sessions. *)
Theorem session_per_request (root : LlmAgent) (now : N) (ds : list Decision)
    (store : Sessions) (prompt project : string) :
  let store' := snd (runAgent root now ds store prompt project) in
  sessionOf store' now
    = (sessionOf store now ++ newMessage prompt project :: run root root ds)%list /\
  (store !! sessionIdAt now = None ->
   sessionOf store' now = newMessage prompt project :: run root root ds) /\
  (forall now', now' <> now ->
     sessionIdAt now' <> sessionIdAt now /\
     store' !! sessionIdAt now' = store !! sessionIdAt now').
Proof.
  cbv zeta. unfold runAgent. cbn [snd].
  rewrite sessionOf_ensure.
  assert (Hserved : sessionOf
            (<[sessionIdAt now :=
                 (sessionOf store now ++ newMessage prompt project :: run root root ds)%list]>
               (ensureSession (sessionIdAt now) store)) now
          = (sessionOf store now ++ newMessage prompt project :: run root root ds)%list).
  { unfold sessionOf at 1. rewrite lookup_insert_eq. reflexivity. }
  split; [exact Hserved |]. split.
  - intros Hnone. rewrite Hserved. unfold sessionOf. rewrite Hnone. reflexivity.
  - intros now' Hne.
    assert (Hid : sessionIdAt now' <> sessionIdAt now).
    { intros H. apply Hne. apply sessionIdAt_inj. exact H. }
    split; [exact Hid |].
    rewrite lookup_insert_ne by (intros H; apply Hid; symmetry; exact H).
    unfold ensureSession. destruct (store !! sessionIdAt now); [reflexivity |].
    rewrite lookup_insert_ne by (intros H; apply Hid; symmetry; exact H). reflexivity.
Qed.

Lemma session_per_request_witness :
  sessionOf (converse Delegating.agent [Samples.diagnose; Samples.confirm])
            (at_time Samples.confirm)
  = [newMessage "Yes, go ahead." "proj-a"; AgentText "network_support" "Which fix do you mean?"].
Proof.
  unfold converse. cbn [foldl]. unfold serve at 1.
  apply (session_per_request Delegating.agent (at_time Samples.confirm)
           (decisions Samples.confirm) _ (prompt Samples.confirm) (project Samples.confirm)).
  vm_compute. reflexivity.
Defined.

(** C3, the claim as stated, fails: the reply to the proposal arrives a
    minute after the first request and is served by another session. *)
Lemma reply_served_by_new_session :
  ~ Claims.one_session_per_conversation [Samples.diagnose; Samples.confirm].
Proof.
  intros H. specialize (H Samples.diagnose Samples.confirm).
  assert (Hne : at_time Samples.diagnose <> at_time Samples.confirm) by discriminate.
  apply Hne, sessionIdAt_inj, H; [left | right; left].
Qed.

(** *** The agent tree *)

Lemma findAgent_in_tree (n : string) (a : LlmAgent) :
  findAgent n Delegating.agent = Some a -> in_tree a /\ name a = n.
Proof.
  unfold in_tree, Delegating.agent, Delegating.troubleshooterAgent, Delegating.firewallAdminAgent.
  cbn [findAgent name].
  destruct (String.eqb "network_support" n) eqn:E1;
    [apply String.eqb_eq in E1; intros [= <-]; auto |].
  destruct (String.eqb "troubleshooter" n) eqn:E2;
    [apply String.eqb_eq in E2; intros [= <-]; auto |].
  destruct (String.eqb "firewall_admin" n) eqn:E3;
    [apply String.eqb_eq in E3; intros [= <-]; auto |].
  discriminate.
Qed.

Lemma holder_of_mutating_tool (a : LlmAgent) :
  in_tree a -> firewallManagerTool ∈ tools a -> a = Delegating.firewallAdminAgent.
Proof.
  intros [-> | [-> | ->]] H; [exfalso | exfalso | reflexivity]; revert H; cbn.
  - intros H. inversion H.
  - unfold firewallManagerTool. rewrite !elem_of_cons, elem_of_nil.
    intros [H | [H | [H | [H | H]]]]; try discriminate. exact H.
Qed.

Lemma run_mutation_author (ds : list Decision) :
  forall (active : LlmAgent) (k : nat) (a : string),
    in_tree active ->
    run Delegating.agent active ds !! k = Some (ToolCall a firewallManagerTool) ->
    a = "firewall_admin" /\
    (active <> Delegating.firewallAdminAgent ->
     exists (j : nat) (from : string),
       (j < k)%nat /\
       run Delegating.agent active ds !! j = Some (Transfer from "firewall_admin")).
Proof.
  induction ds as [| d ds IH]; intros active k a Hact Hk; [cbn in Hk; discriminate |].
  destruct d as [t | n | text]; cbn [run] in *.
  - destruct (bool_decide (t ∈ tools active)) eqn:Et.
    + apply bool_decide_eq_true in Et. destruct k as [| k]; cbn in Hk.
      * injection Hk as <- ->.
        pose proof (holder_of_mutating_tool active Hact Et) as ->.
        split; [reflexivity |]. intros H. contradiction.
      * destruct (IH active k a Hact Hk) as [Ha Hpre]. split; [exact Ha |].
        intros Hne. destruct (Hpre Hne) as [j [from [Hj Hl]]].
        exists (S j), from. split; [lia | exact Hl].
    + exact (IH active k a Hact Hk).
  - destruct (findAgent n Delegating.agent) as [b |] eqn:Eb.
    + destruct (findAgent_in_tree n b Eb) as [Hb Hn].
      destruct k as [| k]; cbn in Hk; [discriminate |].
      destruct (IH b k a Hb Hk) as [Ha Hpre]. split; [exact Ha |].
      intros _. destruct Hb as [-> | [-> | ->]].
      * destruct Hpre as [j [from [Hj Hl]]]; [discriminate |].
        exists (S j), from. split; [lia | exact Hl].
      * destruct Hpre as [j [from [Hj Hl]]]; [discriminate |].
        exists (S j), from. split; [lia | exact Hl].
      * exists 0%nat, (name active). split; [lia |]. cbn in Hn. subst n. reflexivity.
    + exact (IH active k a Hact Hk).
  - destruct k as [| k]; cbn in Hk; discriminate.
Qed.

(** C1 (as amended). In the delegating wiring neither the coordinator
    nor the diagnostic role holds the mutating tool.  For every
    sequence of oracle decisions, whichever role is active at its
    start, the mutating tool is invoked only by the remediation role;
    and when another role is active at the start, as the coordinator is
    in every request, only after a hand-over to the remediation role.
    Whether the user agreed is not part of what is checked. *)
Theorem mutation_only_by_remediation_role :
  (firewallManagerTool ∉ tools Delegating.agent) /\
  (firewallManagerTool ∉ tools Delegating.troubleshooterAgent) /\
  (forall (active : LlmAgent) (ds : list Decision) (k : nat) (a : string),
     in_tree active ->
     run Delegating.agent active ds !! k = Some (ToolCall a firewallManagerTool) ->
     a = "firewall_admin" /\
     (active <> Delegating.firewallAdminAgent ->
      exists (j : nat) (from : string),
        (j < k)%nat /\
        run Delegating.agent active ds !! j = Some (Transfer from "firewall_admin"))) /\
  (forall (now : N) (ds : list Decision) (store : Sessions) (prompt project : string)
          (k : nat) (a : string),
     details (fst (runAgent Delegating.agent now ds store prompt project)) !! k
       = Some (ToolCall a firewallManagerTool) ->
     a = "firewall_admin").
Proof.
  split; [| split; [| split]].
  - cbn. intros H. inversion H.
  - intros H. apply (holder_of_mutating_tool Delegating.troubleshooterAgent) in H;
      [discriminate | right; left; reflexivity].
  - intros active ds. apply run_mutation_author.
  - intros now ds store prompt project k a H. cbn [runAgent fst details] in H.
    eapply run_mutation_author; [| exact H]. left. reflexivity.
Qed.

Lemma mutation_only_by_remediation_role_witness :
  exists (j : nat) (from : string),
    (j < 2)%nat /\
    run Delegating.agent Delegating.agent (decisions Samples.hasty) !! j
      = Some (Transfer from "firewall_admin").
Proof.
  destruct mutation_only_by_remediation_role as [_ [_ [H _]]].
  apply (H Delegating.agent (decisions Samples.hasty) 2%nat "firewall_admin").
  - left. reflexivity.
  - reflexivity.
  - discriminate.
Defined.

(** C1, the claim as stated, fails: in one request, which holds a
    single user turn, the oracle hands over twice and the remediation
    role invokes the mutating tool.  No user turn lies between an
    answer of an agent and the invocation, however user turns are
    classified. *)
Lemma mutation_without_confirmation :
  ~ confirmation_gate (fun _ => true)
      (sessionOf (converse Delegating.agent [Samples.hasty]) (at_time Samples.hasty)).
Proof.
  assert (Hev : sessionOf (converse Delegating.agent [Samples.hasty]) (at_time Samples.hasty)
                = [newMessage (prompt Samples.hasty) (project Samples.hasty);
                   Transfer "network_support" "troubleshooter";
                   Transfer "troubleshooter" "firewall_admin";
                   ToolCall "firewall_admin" firewallManagerTool])
    by (vm_compute; reflexivity).
  rewrite Hev. intros H.
  destruct (H 3%nat "firewall_admin" eq_refl) as [i [j [e [text [Hij [Hjk [_ [_ [Hj _]]]]]]]]].
  destruct j as [| [| [| j]]]; cbn in Hj; try discriminate; lia.
Qed.

(** In the single-agent wiring the one role holds the mutating tool. *)
Lemma single_agent_holds_mutating_tool : firewallManagerTool ∈ tools Single.agent.
Proof. cbn. unfold firewallManagerTool. repeat (try left; right). Qed.

End AgentFacts.

(** * Further properties of the code *)

(** ** Strings and the project pattern *)

Module PatternFacts.
Import Js JsFacts.

#[local] Arguments String.append : simpl nomatch.

Lemma append_assoc (a b c : string) : (a +:+ b) +:+ c = a +:+ b +:+ c.
Proof. induction a as [| x a IH]; simpl; [reflexivity | f_equal; exact IH]. Qed.

Lemma strip_prefix_app (p s r : string) : strip_prefix p s = Some r -> s = p +:+ r.
Proof.
  revert s. induction p as [| a p IH]; intros s; simpl.
  - intros [= ->]. reflexivity.
  - destruct s as [| b s]; [discriminate |].
    destruct (Ascii.eqb a b) eqn:E; [| discriminate].
    apply Ascii.eqb_eq in E. subst b. intros H. rewrite (IH s H). reflexivity.
Qed.

Lemma strip_prefix_hit (p r : string) : strip_prefix p (p +:+ r) = Some r.
Proof.
  induction p as [| a p IH]; simpl; [reflexivity |].
  rewrite Ascii.eqb_refl. exact IH.
Qed.

Lemma take_run_slash (s run rest : string) :
  take_run is_slash s = (run, rest) ->
  s = run +:+ rest /\ includes_char "/" run = false.
Proof.
  revert run rest. induction s as [| c s IH]; intros run rest; simpl.
  - intros [= <- <-]. auto.
  - unfold is_slash at 1. destruct (Ascii.eqb c "/") eqn:E.
    + intros [= <- <-]. auto.
    + destruct (take_run is_slash s) as [run' rest'] eqn:Et.
      intros [= <- <-]. destruct (IH run' rest' eq_refl) as [-> Hno].
      split; [reflexivity |]. cbn [includes_char]. rewrite (Ascii.eqb_sym "/" c), E. exact Hno.
Qed.

Lemma take_run_slash_hit (g rest : string) :
  includes_char "/" g = false ->
  take_run is_slash (g +:+ String "/" rest) = (g, String "/" rest).
Proof.
  induction g as [| c g IH]; cbn [includes_char String.append take_run]; [reflexivity |].
  intros H. apply orb_false_iff in H as [Hc Hg].
  unfold is_slash at 1. rewrite (Ascii.eqb_sym c "/"), Hc, (IH Hg). reflexivity.
Qed.

Lemma match_here_project (g : string) (n : nat) (s : string) :
  match_here is_slash "/" s = Some (g, n) ->
  g <> EmptyString /\ includes_char "/" g = false /\
  exists post, s = "projects/" +:+ g +:+ "/" +:+ post.
Proof.
  unfold match_here.
  destruct (strip_prefix "projects/" s) as [r |] eqn:Ep; [| discriminate].
  destruct (take_run is_slash r) as [run rest] eqn:Et.
  destruct run as [| c run]; [discriminate |].
  destruct (strip_prefix "/" rest) as [post |] eqn:Es; [| discriminate].
  intros [= <- <-].
  apply strip_prefix_app in Ep, Es. apply take_run_slash in Et as [Hr Hno].
  split; [discriminate |]. split; [exact Hno |].
  exists post. rewrite Ep, Hr, Es. reflexivity.
Qed.

Lemma match_here_project_hit (g post : string) :
  g <> EmptyString -> includes_char "/" g = false ->
  exists n, match_here is_slash "/" ("projects/" +:+ g +:+ "/" +:+ post) = Some (g, n).
Proof.
  intros Hne Hno. unfold match_here.
  rewrite (strip_prefix_hit "projects/").
  change ("/" +:+ post) with (String "/" post).
  rewrite (take_run_slash_hit g post Hno).
  destruct g as [| c g]; [contradiction |].
  change (String "/" post) with ("/" +:+ post).
  rewrite (strip_prefix_hit "/" post). eauto.
Qed.

Lemma first_match_project (s g : string) :
  first_match is_slash "/" s = Some g ->
  g <> EmptyString /\ includes_char "/" g = false /\
  exists pre post, s = pre +:+ "projects/" +:+ g +:+ "/" +:+ post.
Proof.
  induction s as [| c s IH]; cbn [first_match].
  - destruct (match_here is_slash "/" EmptyString) as [[g' n] |] eqn:E; [| discriminate].
    intros [= ->]. destruct (match_here_project _ _ _ E) as [H1 [H2 [post H3]]].
    repeat split; try assumption. exists EmptyString, post. exact H3.
  - destruct (match_here is_slash "/" (String c s)) as [[g' n] |] eqn:E.
    + intros [= ->]. destruct (match_here_project _ _ _ E) as [H1 [H2 [post H3]]].
      repeat split; try assumption. exists EmptyString, post. exact H3.
    + intros H. destruct (IH H) as [H1 [H2 [pre [post H3]]]].
      repeat split; try assumption. exists (String c pre), post. rewrite H3. reflexivity.
Qed.

(** A start position at which the pattern does not match is passed. *)
Lemma first_match_skip (c : ascii) (s : string) :
  match_here is_slash "/" (String c s) = None ->
  first_match is_slash "/" (String c s) = first_match is_slash "/" s.
Proof. intros H. cbn [first_match]. rewrite H. reflexivity. Qed.

Lemma first_match_hit (g post : string) :
  g <> EmptyString -> includes_char "/" g = false ->
  first_match is_slash "/" ("projects/" +:+ g +:+ "/" +:+ post) = Some g.
Proof.
  intros Hne Hno. destruct (match_here_project_hit g post Hne Hno) as [n H].
  change ("projects/" +:+ g +:+ "/" +:+ post)
    with (String "p" ("rojects/" +:+ g +:+ "/" +:+ post)) in *.
  cbn [first_match]. rewrite H. reflexivity.
Qed.

(** X1. [extractProjectFromUrl] gives [null] for [null], [undefined]
    and the empty string.  When it gives a project, the project is not
    empty, holds no slash, and stands in the URL between [projects/]
    and the next slash. *)
Theorem extractProjectFromUrl_sound (url : option string) (p : string) :
  (truthy_str url = false -> UrlHelper.extractProjectFromUrl url = None) /\
  (UrlHelper.extractProjectFromUrl url = Some p ->
   p <> EmptyString /\ includes_char "/" p = false /\
   exists u pre post, url = Some u /\ u = pre +:+ "projects/" +:+ p +:+ "/" +:+ post).
Proof.
  unfold UrlHelper.extractProjectFromUrl. split.
  - intros ->. reflexivity.
  - destruct url as [u |]; simpl; [| discriminate].
    destruct (negb (String.eqb u EmptyString)); [| discriminate].
    unfold match_project. intros H.
    destruct (first_match_project u p H) as [H1 [H2 [pre [post H3]]]].
    repeat split; try assumption. exists u, pre, post. auto.
Qed.

Lemma extractProjectFromUrl_sound_witness :
  includes_char "/" "proj-b" = false.
Proof.
  eapply (extractProjectFromUrl_sound (Some Samples.sharedSubnetUrl) "proj-b").
  vm_compute. reflexivity.
Defined.

(** X2. For both shapes of reference named in the source, the relative
    resource name and the full API URL, the helper gives the project
    segment, for every project identifier that is not empty and holds
    no slash and whatever follows it. *)
Theorem extractProjectFromUrl_documented_shapes (p rest : string) :
  p <> EmptyString -> includes_char "/" p = false ->
  UrlHelper.extractProjectFromUrl (Some ("projects/" +:+ p +:+ "/" +:+ rest)) = Some p /\
  UrlHelper.extractProjectFromUrl
    (Some ("https://www.googleapis.com/compute/v1/" +:+ "projects/" +:+ p +:+ "/" +:+ rest))
  = Some p.
Proof.
  intros Hne Hno. unfold UrlHelper.extractProjectFromUrl, match_project. split.
  - cbn [truthy_str show]. rewrite (first_match_hit p rest Hne Hno). reflexivity.
  - cbn [truthy_str show].
    change ("https://www.googleapis.com/compute/v1/" +:+ "projects/" +:+ p +:+ "/" +:+ rest)
      with (String "h" ("ttps://www.googleapis.com/compute/v1/"
                        +:+ "projects/" +:+ p +:+ "/" +:+ rest)).
    cbn [String.eqb negb].
    cbn [String.append].
    repeat (rewrite first_match_skip by reflexivity).
    apply (first_match_hit p rest Hne Hno).
Qed.

Lemma extractProjectFromUrl_documented_shapes_witness :
  UrlHelper.extractProjectFromUrl (Some ("projects/" +:+ "proj-b" +:+ "/" +:+ "zones/z")) = Some "proj-b".
Proof.
  apply (extractProjectFromUrl_documented_shapes "proj-b" "zones/z").
  - discriminate.
  - reflexivity.
Defined.

End PatternFacts.

(** ** Scope discovery, continued *)

Module DiscoveryMore.
Import Js JsFacts Discovery DiscoveryFacts.

(** *** The edge list and the visited set only grow *)

Lemma prefix_addIfUnvisited p d r st0 st :
  projectGraph st0 `prefix_of` projectGraph st /\
  visitedProjects st0 `prefix_of` visitedProjects st ->
  projectGraph st0 `prefix_of` projectGraph (addIfUnvisited p d r st) /\
  visitedProjects st0 `prefix_of` visitedProjects (addIfUnvisited p d r st).
Proof.
  intros [Hg Hv]. unfold addIfUnvisited, set_add.
  destruct (set_has d (visitedProjects st)); simpl; split; try assumption.
  - apply prefix_app_r. assumption.
  - apply prefix_app_r. assumption.
Qed.

Lemma prefix_scanProject inv st p :
  projectGraph st `prefix_of` projectGraph (scanProject inv st p) /\
  visitedProjects st `prefix_of` visitedProjects (scanProject inv st p).
Proof.
  unfold scanProject.
  pose proof (P_scanBody
                (fun st' => projectGraph st `prefix_of` projectGraph st' /\
                            visitedProjects st `prefix_of` visitedProjects st') p
                (fun c st' _ H => H)
                (fun d r st' H => prefix_addIfUnvisited p d r st st' H)
                (inv p) (logScanning p st) (conj (reflexivity _) (reflexivity _))) as H.
  destruct (scanBody _ _ _) as [st' [m |]]; simpl in *; [| assumption].
  destruct H as [Hg Hv]. split; [apply prefix_app_r |]; assumption.
Qed.

Lemma prefix_foldl inv ps st :
  projectGraph st `prefix_of` projectGraph (foldl (scanProject inv) st ps) /\
  visitedProjects st `prefix_of` visitedProjects (foldl (scanProject inv) st ps).
Proof.
  revert st. induction ps as [| p ps IH]; intros st; simpl.
  - split; reflexivity.
  - destruct (IH (scanProject inv st p)) as [Hg Hv].
    destruct (prefix_scanProject inv st p) as [Hg0 Hv0].
    split; etransitivity; eassumption.
Qed.

(** X3. Scanning only appends.  The edges and the visited projects
    found while scanning the first roots of a list stay, in the same
    order, at the front of those found after scanning the whole list:
    no edge and no project is removed or reordered by a later scan. *)
Theorem scan_only_appends (inv : Inventory) (roots done rest : list string) :
  let before := foldl (scanProject inv) (initialState roots) done in
  let after := foldl (scanProject inv) (initialState roots) (done ++ rest) in
  projectGraph before `prefix_of` projectGraph after /\
  visitedProjects before `prefix_of` visitedProjects after.
Proof. cbv zeta. rewrite foldl_app. apply prefix_foldl. Qed.

(** X4. The scope returned is exactly the distinct roots, in order of
    first occurrence, followed by the targets of the returned links in
    the order of the links; it holds no project twice. *)
Theorem scope_is_roots_then_targets (inv : Inventory) (input : RootInput) :
  let res := detectAgentScope inv input in
  detectedScope res = (set_from (startProjects input) ++ targets (relationships res))%list /\
  NoDup (detectedScope res).
Proof.
  cbv zeta. destruct (invariant_scanAll (startProjects input) inv) as [Hv Hnd _ _].
  split; assumption.
Qed.

(** *** Sources *)

Lemma sources_scanProject inv (roots : list string) st p :
  p ∈ roots ->
  Forall (fun e => entry_source e ∈ roots) (projectGraph st) ->
  Forall (fun e => entry_source e ∈ roots) (projectGraph (scanProject inv st p)).
Proof.
  intros Hp Hst. unfold scanProject.
  assert (H : Forall (fun e => entry_source e ∈ roots)
                (projectGraph (fst (scanBody (inv p) p (logScanning p st))))).
  { apply (P_scanBody (fun st' => Forall (fun e => entry_source e ∈ roots) (projectGraph st')) p).
    - intros c st' _ H. exact H.
    - intros d r st' H. unfold addIfUnvisited. destruct (negb _); simpl; [| exact H].
      apply Forall_app. split; [exact H |]. constructor; [exact Hp | constructor].
    - exact Hst. }
  destruct (scanBody _ _ _) as [st' [m |]]; simpl in *; [| assumption].
  apply Forall_app. split; [exact H |]. constructor; [exact Hp | constructor].
Qed.

Lemma sources_foldl inv (roots : list string) ps st :
  (forall p, p ∈ ps -> p ∈ roots) ->
  Forall (fun e => entry_source e ∈ roots) (projectGraph st) ->
  Forall (fun e => entry_source e ∈ roots) (projectGraph (foldl (scanProject inv) st ps)).
Proof.
  revert st. induction ps as [| p ps IH]; simpl; intros st Hps Hst; [assumption |].
  apply IH.
  - intros q Hq. apply Hps. right. assumption.
  - apply sources_scanProject; [apply Hps; left | assumption].
Qed.

(** X5. Every entry returned, link or error, has one of the roots as
    its source, and no link joins a project to itself. *)
Theorem sources_are_roots (inv : Inventory) (input : RootInput) :
  let res := detectAgentScope inv input in
  (forall e, e ∈ relationships res -> entry_source e ∈ startProjects input) /\
  (forall s t r, Link s t r ∈ relationships res -> s <> t).
Proof.
  cbv zeta.
  assert (Hsrc : forall e, e ∈ relationships (detectAgentScope inv input) ->
                           entry_source e ∈ startProjects input).
  { apply Forall_forall. simpl. unfold scanAll.
    apply sources_foldl; [auto | constructor]. }
  split; [exact Hsrc |].
  intros s t r Hin Heq. subst t.
  apply (no_root_target inv (startProjects input) s s r Hin).
  apply (Hsrc (Link s s r) Hin).
Qed.

(** *** Error entries *)

Lemma forOf_thrown {A : Type} (Q : string -> Prop)
    (body : A -> ScanState -> ScanState * option string) (xs : list A) :
  (forall x st m, snd (body x st) = Some m -> Q m) ->
  forall st m, snd (forOf body xs st) = Some m -> Q m.
Proof.
  intros Hb. induction xs as [| x xs IH]; simpl; intros st m; [discriminate |].
  destruct (body x st) as [st' [m' |]] eqn:E; simpl.
  - intros [= <-]. apply (Hb x st). rewrite E. reflexivity.
  - apply IH.
Qed.

Lemma instanceBody_thrown p inst st m :
  snd (instanceBody p inst st) = Some m ->
  m = "Cannot read properties of null (reading 'network')".
Proof.
  unfold instanceBody.
  destruct (additionalAttributes inst) as [a |]; [| discriminate].
  destruct (truthy a); [| discriminate].
  destruct (prop a "networkInterfaces") as [ni |]; [| discriminate].
  destruct (truthy ni); [| discriminate].
  apply (forOf_thrown (fun m => m = "Cannot read properties of null (reading 'network')")).
  intros nic st' m'. unfold nicBody.
  destruct nic; simpl; try discriminate. intros [= <-]. reflexivity.
Qed.

Lemma scanBody_thrown d p st m :
  snd (scanBody d p st) = Some m ->
  searchResources d = Rejected m \/ searchInstances d = Rejected m \/
  m = "Cannot read properties of null (reading 'network')".
Proof.
  unfold scanBody.
  destruct (searchResources d) as [resources | m1]; [| simpl; intros [= <-]; auto].
  destruct (searchInstances d) as [instances | m2]; [| simpl; intros [= <-]; auto].
  destruct (forOf (instanceBody p) instances _) as [st5 [m5 |]] eqn:E; simpl; [| discriminate].
  intros [= <-]. right. right.
  eapply (forOf_thrown (fun m => m = "Cannot read properties of null (reading 'network')")
            (instanceBody p) instances (instanceBody_thrown p)).
  rewrite E. reflexivity.
Qed.

Lemma scanBody_keeps_errors d p st q m :
  ScanError q m ∈ projectGraph (fst (scanBody d p st)) -> ScanError q m ∈ projectGraph st.
Proof.
  apply (P_scanBody (fun st' => ScanError q m ∈ projectGraph st' -> ScanError q m ∈ projectGraph st) p).
  - intros c st' _ H. exact H.
  - intros t r st' H. unfold addIfUnvisited. destruct (negb _); simpl; [| exact H].
    intros Hin. apply elem_of_app in Hin as [Hin | Hin]; [auto |].
    apply list_elem_of_singleton in Hin. discriminate.
  - auto.
Qed.

Lemma errors_scanProject inv st p q m :
  ScanError q m ∈ projectGraph (scanProject inv st p) ->
  ScanError q m ∈ projectGraph st \/
  (q = p /\ (searchResources (inv p) = Rejected m \/ searchInstances (inv p) = Rejected m \/
             m = "Cannot read properties of null (reading 'network')")).
Proof.
  unfold scanProject.
  pose proof (scanBody_keeps_errors (inv p) p (logScanning p st) q m) as Hkeep.
  pose proof (scanBody_thrown (inv p) p (logScanning p st)) as Hthrown.
  destruct (scanBody _ _ _) as [st' [m' |]]; simpl in *; [| auto].
  intros Hin. apply elem_of_app in Hin as [Hin | Hin]; [auto |].
  apply list_elem_of_singleton in Hin. injection Hin as -> ->. right. auto.
Qed.

Lemma errors_foldl inv ps st q m :
  ScanError q m ∈ projectGraph (foldl (scanProject inv) st ps) ->
  ScanError q m ∈ projectGraph st \/
  (q ∈ ps /\ (searchResources (inv q) = Rejected m \/ searchInstances (inv q) = Rejected m \/
              m = "Cannot read properties of null (reading 'network')")).
Proof.
  revert st. induction ps as [| p ps IH]; simpl; intros st Hin; [auto |].
  destruct (IH _ Hin) as [H | [Hq Hc]].
  - destruct (errors_scanProject inv st p q m H) as [H' | [-> Hc]]; [auto |].
    right. split; [left | exact Hc].
  - right. split; [right; exact Hq | exact Hc].
Qed.

Lemma rejected_search_pushed inv st p m :
  searchResources (inv p) = Rejected m -> ScanError p m ∈ projectGraph (scanProject inv st p).
Proof.
  intros H. unfold scanProject, scanBody. rewrite H. simpl.
  apply elem_of_app. right. left.
Qed.

(** X6. An error entry is returned for a root exactly as the source
    shows it: when one of the two inventory searches of that root is
    rejected, with the message of the rejection, or when a network
    interface of one of its instances is [null].  A rejected host
    lookup or usable-subnet listing never gives one.  And a rejected
    first search of a root always gives its entry, whatever happens
    for the roots scanned after it. *)
Theorem error_entries_explained (inv : Inventory) (input : RootInput) :
  let res := detectAgentScope inv input in
  (forall p m, ScanError p m ∈ relationships res ->
     p ∈ startProjects input /\
     (searchResources (inv p) = Rejected m \/ searchInstances (inv p) = Rejected m \/
      m = "Cannot read properties of null (reading 'network')")) /\
  (forall p m, p ∈ startProjects input -> searchResources (inv p) = Rejected m ->
     ScanError p m ∈ relationships res).
Proof.
  cbv zeta. simpl. unfold scanAll. split.
  - intros p m Hin. destruct (errors_foldl _ _ _ _ _ Hin) as [H | H]; [inversion H | exact H].
  - intros p m Hp Hrej. apply list_elem_of_split in Hp as [l1 [l2 Heq]].
    rewrite Heq at 2. rewrite foldl_app. simpl.
    destruct (prefix_foldl inv l2
                (scanProject inv (foldl (scanProject inv) (initialState (startProjects input)) l1) p))
      as [[k Hk] _].
    rewrite Hk. apply elem_of_app. left. apply rejected_search_pushed. exact Hrej.
Qed.

(** *** The instance site *)

Lemma addLinkNic_internal p d r st0 st :
  (("google-cloud-clients" ∈ visitedProjects st -> "google-cloud-clients" ∈ visitedProjects st0) /\
   (forall s x, Link s "google-cloud-clients" x ∈ projectGraph st ->
                Link s "google-cloud-clients" x ∈ projectGraph st0)) ->
  (("google-cloud-clients" ∈ visitedProjects (addLinkNic p d r st) ->
    "google-cloud-clients" ∈ visitedProjects st0) /\
   (forall s x, Link s "google-cloud-clients" x ∈ projectGraph (addLinkNic p d r st) ->
                Link s "google-cloud-clients" x ∈ projectGraph st0)).
Proof.
  intros [Hv Hg]. unfold addLinkNic.
  destruct (negb (String.eqb d p)); simpl; [| auto].
  destruct (String.eqb d "google-cloud-clients") eqn:E; simpl; [auto |].
  apply String.eqb_neq in E.
  unfold addIfUnvisited. destruct (set_has d (visitedProjects st)); simpl; [auto |].
  split.
  - intros H. apply elem_of_set_add in H as [H | H]; [congruence | auto].
  - intros s x H. apply elem_of_app in H as [H | H]; [auto |].
    apply list_elem_of_singleton in H. congruence.
Qed.

(** X7. The loop over the instances of a project never brings the
    provider's internal project in: after it, that project is in the
    visited set, or is the target of a link, only if it already was
    before the loop, whatever the instances and their interfaces hold
    and whether or not the loop ends by a throw. *)
Theorem instances_never_add_internal (p : string) (instances : list Resource) (st : ScanState) :
  let st' := fst (forOf (instanceBody p) instances st) in
  ("google-cloud-clients" ∈ visitedProjects st' -> "google-cloud-clients" ∈ visitedProjects st) /\
  (forall s x, Link s "google-cloud-clients" x ∈ projectGraph st' ->
               Link s "google-cloud-clients" x ∈ projectGraph st).
Proof.
  cbv zeta.
  apply (P_forOf
           (fun st' =>
              ("google-cloud-clients" ∈ visitedProjects st' ->
               "google-cloud-clients" ∈ visitedProjects st) /\
              (forall s x, Link s "google-cloud-clients" x ∈ projectGraph st' ->
                           Link s "google-cloud-clients" x ∈ projectGraph st))); [| auto].
  intros inst st1 H1. unfold instanceBody.
  destruct (additionalAttributes inst) as [a |]; [| exact H1].
  destruct (truthy a); [| exact H1].
  destruct (prop a "networkInterfaces") as [ni |]; [| exact H1].
  destruct (truthy ni); [| exact H1].
  apply P_forOf; [| exact H1].
  intros nic st2 H2. unfold nicBody.
  assert (Hloop : forall uris,
             ("google-cloud-clients" ∈ visitedProjects (foldl (nicUri p inst) st2 uris) ->
              "google-cloud-clients" ∈ visitedProjects st) /\
             (forall s x, Link s "google-cloud-clients" x ∈ projectGraph (foldl (nicUri p inst) st2 uris) ->
                          Link s "google-cloud-clients" x ∈ projectGraph st)).
  { intros uris. apply P_foldl; [| exact H2].
    intros st3 uri H3. unfold nicUri.
    destruct (match_project uri); [| exact H3].
    apply addLinkNic_internal. exact H3. }
  destruct nic; simpl; try exact H2; apply Hloop.
Qed.

(** *** The root list given as one string *)

Lemma split_comma_plain (w : string) :
  includes_char "," w = false -> split_comma w = [w].
Proof.
  induction w as [| c w IH]; cbn [includes_char split_comma]; [reflexivity |].
  intros H. apply orb_false_iff in H as [Hc Hw].
  rewrite (Ascii.eqb_sym c ","), Hc, (IH Hw). reflexivity.
Qed.

Lemma split_comma_app (w s : string) :
  includes_char "," w = false ->
  split_comma (w +:+ String "," s) = w :: split_comma s.
Proof.
  induction w as [| c w IH]; intros H.
  - change (EmptyString +:+ String "," s) with (String "," s).
    cbn [split_comma]. reflexivity.
  - cbn [includes_char] in H. apply orb_false_iff in H as [Hc Hw].
    change (String c w +:+ String "," s) with (String c (w +:+ String "," s)).
    cbn [split_comma]. rewrite (Ascii.eqb_sym c ","), Hc, (IH Hw). reflexivity.
Qed.

Lemma split_comma_join (l : list string) :
  l <> [] -> (forall w, w ∈ l -> includes_char "," w = false) ->
  split_comma (join "," l) = l.
Proof.
  induction l as [| x l IH]; [contradiction |]. intros _ Hl.
  destruct l as [| y l].
  - cbn [join]. apply split_comma_plain. apply Hl. left.
  - change (join "," (x :: y :: l)) with (x +:+ String "," (join "," (y :: l))).
    rewrite split_comma_app by (apply Hl; left).
    rewrite IH; [reflexivity | discriminate |].
    intros w Hw. apply Hl. right. exact Hw.
Qed.

Lemma trimStart_fixed (w : string) :
  (forall c, head_char w = Some c -> is_white_space c = false) -> trimStart w = w.
Proof.
  destruct w as [| c w]; simpl; [reflexivity |].
  intros H. rewrite (H c eq_refl). reflexivity.
Qed.

Lemma trimEnd_fixed (w : string) :
  (forall c, last_char w = Some c -> is_white_space c = false) -> trimEnd w = w.
Proof.
  induction w as [| c w IH]; cbn [trimEnd]; [reflexivity |].
  intros H. destruct w as [| d w].
  - cbn [trimEnd]. rewrite (H c eq_refl). reflexivity.
  - rewrite IH by (intros e He; apply H; exact He). reflexivity.
Qed.

(** X8. A root list sent as one string gives back the list it was
    joined from: for a list that is not empty, whose items hold no
    comma and neither begin nor end with white space, the string of
    its items joined by commas is read as that list, and the run on
    the string returns what the run on the array returns. *)
Theorem roots_string_round_trip (inv : Inventory) (l : list string) :
  l <> [] ->
  (forall w, w ∈ l ->
     includes_char "," w = false /\
     (forall c, head_char w = Some c \/ last_char w = Some c -> is_white_space c = false)) ->
  startProjects (InString (join "," l)) = l /\
  detectAgentScope inv (InString (join "," l)) = detectAgentScope inv (InArray l).
Proof.
  intros Hne Hl.
  assert (H : startProjects (InString (join "," l)) = l).
  { cbn [startProjects]. rewrite split_comma_join; [| exact Hne | intros w Hw; apply Hl; exact Hw].
    clear Hne. induction l as [| x l IH]; [reflexivity |]. cbn [List.map]. f_equal.
    - unfold trim. destruct (Hl x (list_elem_of_here x l)) as [_ Hws].
      rewrite trimStart_fixed by (intros c Hc; apply Hws; left; exact Hc).
      apply trimEnd_fixed. intros c Hc. apply Hws. right. exact Hc.
    - apply IH. intros w Hw. apply Hl. right. exact Hw. }
  split; [exact H |]. unfold detectAgentScope. rewrite H. reflexivity.
Qed.

Lemma roots_string_round_trip_witness :
  startProjects (InString "proj-a,proj-b") = ["proj-a"; "proj-b"].
Proof.
  apply (roots_string_round_trip Samples.sharedVpcInventory ["proj-a"; "proj-b"]).
  - discriminate.
  - intros w Hw. apply elem_of_cons in Hw as [-> | Hw];
      [| apply list_elem_of_singleton in Hw; subst w];
      (split; [reflexivity |]); intros c [[= <-] | [= <-]]; reflexivity.
Defined.

End DiscoveryMore.

(** ** Flow-log correlation, continued *)

Module FlowLogsMore.
Import Js JsFacts FlowLogs FlowLogsFacts.

(** X9. Every record returned was read from the log table of the
    project in its tag: it is a row of the answer to a query made for
    that project, and that query succeeded. *)
Theorem record_provenance (bq : BigQuery) (p : Params) (rec : FlowLogRecord) :
  rec ∈ records (queryVpcFlowLogs bq p) ->
  exists i rows,
    uniqueProjects p !! i = Some (source_dataset_project rec) /\
    bq i (optionsFor p (source_dataset_project rec)) = Resolved rows /\
    row rec ∈ rows.
Proof.
  intros H. apply records_from_loop in H.
  destruct (runQueries_unrolled bq p) as [_ [_ Hres]]. rewrite Hres in H.
  apply elem_of_results_from in H. exact H.
Qed.

Lemma record_provenance_witness :
  exists i rows,
    uniqueProjects (Samples.flowParams (Some 5)) !! i = Some "p2" /\
    Samples.flowLogTables i (optionsFor (Samples.flowParams (Some 5)) "p2") = Resolved rows /\
    Samples.flowRow 1700000008000 ∈ rows.
Proof.
  apply (record_provenance Samples.flowLogTables (Samples.flowParams (Some 5))
           {| row := Samples.flowRow 1700000008000; source_dataset_project := "p2" |}).
  vm_compute. left.
Defined.

(** *** The sort keeps the rows and their arrival order *)

Lemma filter_insert_desc (t : Z) (x : FlowLogRecord) (l : list FlowLogRecord) :
  List.filter (fun r => time r =? t) (insert_desc x l)
  = List.filter (fun r => time r =? t) (x :: l).
Proof.
  induction l as [| y l IH]; [reflexivity |].
  cbn [insert_desc]. destruct (time y - time x <=? 0) eqn:E; [reflexivity |].
  apply Z.leb_gt in E. cbn [List.filter] in *. rewrite IH.
  destruct (time x =? t) eqn:Ex, (time y =? t) eqn:Ey; try reflexivity.
  apply Z.eqb_eq in Ex, Ey. lia.
Qed.

(** X10. The sort is stable for the comparator of the source: among
    the combined results, the records of any one timestamp come out in
    the order in which they were collected (project by project in
    query order, row by row within a project). *)
Theorem sort_keeps_arrival_order (t : Z) (l : list FlowLogRecord) :
  List.filter (fun r => time r =? t) (sort_desc l) = List.filter (fun r => time r =? t) l.
Proof.
  induction l as [| x l IH]; [reflexivity |].
  cbn [sort_desc]. rewrite filter_insert_desc. cbn [List.filter]. rewrite IH. reflexivity.
Qed.

Lemma insert_desc_perm (x : FlowLogRecord) (l : list FlowLogRecord) :
  insert_desc x l ≡ₚ x :: l.
Proof.
  induction l as [| y l IH]; [reflexivity |].
  cbn [insert_desc]. destruct (time y - time x <=? 0); [reflexivity |].
  rewrite IH. apply Permutation_swap.
Qed.

Lemma sort_desc_perm (l : list FlowLogRecord) : sort_desc l ≡ₚ l.
Proof.
  induction l as [| x l IH]; [reflexivity |].
  cbn [sort_desc]. rewrite insert_desc_perm, IH. reflexivity.
Qed.

Lemma sorted_desc_app (l1 l2 : list FlowLogRecord) :
  Claims.sorted_desc (l1 ++ l2) ->
  forall a b, a ∈ l1 -> b ∈ l2 -> time b <= time a.
Proof.
  induction l1 as [| x l1 IH]; simpl; intros Hs a b Ha Hb; [inversion Ha |].
  destruct Hs as [Hx Hs]. apply elem_of_cons in Ha as [-> | Ha].
  - apply Hx. apply elem_of_app. right. exact Hb.
  - apply (IH Hs a b Ha Hb).
Qed.

(** X11. The records returned are the newest ones.  The rows gathered
    from all the projects split into the records returned and a rest
    that is left out, nothing being lost or made up, and no record of
    the rest is newer than a returned one. *)
Theorem newest_records_kept (bq : BigQuery) (p : Params) :
  exists rest,
    (records (queryVpcFlowLogs bq p) ++ rest)%list ≡ₚ results (runQueries bq p) /\
    forall a b, a ∈ records (queryVpcFlowLogs bq p) -> b ∈ rest -> time b <= time a.
Proof.
  cbn [queryVpcFlowLogs records].
  destruct (slice0_take (sort_desc (results (runQueries bq p))) (limit_or_default p)) as [n Hn].
  rewrite Hn. exists (drop n (sort_desc (results (runQueries bq p)))). split.
  - rewrite take_drop. apply sort_desc_perm.
  - apply sorted_desc_app. rewrite take_drop. apply sort_desc_sorted.
Qed.

(** X12. How many records are returned: with a limit that is not
    negative, the smaller of the limit and the number of rows
    gathered; with a negative limit, the number of rows gathered less
    the size of the limit, and none when that is below zero.  The
    count reported is that number. *)
Theorem record_count (bq : BigQuery) (p : Params) :
  let res := queryVpcFlowLogs bq p in
  let gathered := Z.of_nat (length (results (runQueries bq p))) in
  Z.of_nat (recordCount res) = Z.of_nat (length (records res)) /\
  (0 <= limit_or_default p ->
   Z.of_nat (recordCount res) = Z.min (limit_or_default p) gathered) /\
  (limit_or_default p < 0 ->
   Z.of_nat (recordCount res) = Z.max (gathered + limit_or_default p) 0).
Proof.
  cbv zeta. cbn [queryVpcFlowLogs recordCount records]. split; [reflexivity |].
  unfold slice0. rewrite length_sort_desc, length_take, length_sort_desc. split; intros H.
  - destruct (limit_or_default p <? 0) eqn:E; [apply Z.ltb_lt in E; lia | lia].
  - apply Z.ltb_lt in H. rewrite H. lia.
Qed.

Lemma record_count_witness :
  Z.of_nat (recordCount (queryVpcFlowLogs Samples.flowLogTables (Samples.flowParams (Some 5))))
  = Z.min 5 (Z.of_nat (length (results (runQueries Samples.flowLogTables
                                           (Samples.flowParams (Some 5)))))).
Proof.
  apply (record_count Samples.flowLogTables (Samples.flowParams (Some 5))).
  vm_compute. discriminate.
Defined.

(** X13. The [errors] field of the result is [undefined] exactly when
    no query was rejected. *)
Theorem errors_undefined_iff_none_rejected (bq : BigQuery) (p : Params) :
  errors_out (queryVpcFlowLogs bq p) = None <->
  forall i proj, uniqueProjects p !! i = Some proj ->
                 exists rows, bq i (optionsFor p proj) = Resolved rows.
Proof.
  cbn [queryVpcFlowLogs errors_out].
  destruct (runQueries_unrolled bq p) as [_ [Herr _]]. rewrite Herr. split.
  - intros H i proj Hi.
    destruct (bq i (optionsFor p proj)) as [rows | m] eqn:E; [eauto |]. exfalso.
    assert (Hin : {| projectId := proj; error := m |} ∈ errors_from bq p 0 (uniqueProjects p)).
    { apply elem_of_errors_from. exists i. simpl. auto. }
    destruct (errors_from bq p 0 (uniqueProjects p)); [inversion Hin | discriminate].
  - intros H. destruct (errors_from bq p 0 (uniqueProjects p)) as [| e es] eqn:E; [reflexivity |].
    exfalso. assert (Hin : e ∈ errors_from bq p 0 (uniqueProjects p)) by (rewrite E; left).
    apply elem_of_errors_from in Hin as [i [Hi Hbq]].
    destruct (H i _ Hi) as [rows Hrows]. simpl in Hbq. congruence.
Qed.

End FlowLogsMore.

(** ** Reachability probe, continued *)

Module ConnectivityMore.
Import Js JsFacts Connectivity.






(** X15. What a probe sends and how it ends.  It returns the completed
    result exactly when the create request, the evaluation and the
    delete request all succeed.  The delete request is sent exactly
    when the create request and the evaluation succeed: after a
    rejected evaluation the test that was created is left in place.
    And a rejected delete request turns a finished evaluation into the
    error result. *)
Theorem probe_outcome (svc : Service) (now : N) (p : Params) :
  let out := runConnectivityTest svc now p in
  let all_resolved :=
    createConnectivityTest svc = Resolved tt /\
    (exists response, operation_promise svc = Resolved response) /\
    deleteConnectivityTest svc = Resolved tt in
  ((exists e s, fst out = Failed e s) <-> ~ all_resolved) /\
  (delete_calls (snd out) = 1%nat <->
     createConnectivityTest svc = Resolved tt /\
     exists response, operation_promise svc = Resolved response) /\
  (forall e s, fst out = Failed e s ->
     s = suggestion_text /\
     (createConnectivityTest svc = Rejected e \/ operation_promise svc = Rejected e \/
      deleteConnectivityTest svc = Rejected e)).
Proof.
  cbv zeta. unfold runConnectivityTest, delete_calls.
  destruct (createConnectivityTest svc) as [[] | m1]; cbn [fst snd].
  - destruct (operation_promise svc) as [response | m2]; cbn [fst snd].
    + destruct (deleteConnectivityTest svc) as [[] | m3]; cbn.
      * split; [| split].
        -- split; [intros [e [s H]]; discriminate |]. intros H. exfalso. apply H. eauto.
        -- split; eauto.
        -- intros e s H. discriminate.
      * split; [| split].
        -- split; [| eauto]. intros _ [_ [_ H]]. discriminate.
        -- split; eauto.
        -- intros e s [= <- <-]. auto.
    + cbn. split; [| split].
      * split; [| eauto]. intros _ [_ [[r H] _]]. discriminate.
      * split; [discriminate |]. intros [_ [r H]]. discriminate.
      * intros e s [= <- <-]. auto.
  - cbn. split; [| split].
    + split; [| eauto]. intros _ [H _]. discriminate.
    + split; [discriminate |]. intros [H _]. discriminate.
    + intros e s [= <- <-]. auto.
Qed.

End ConnectivityMore.

(** ** Firewall mutation, continued *)

Module FirewallMore.
Import Js Firewall FirewallFacts.

(** X16. One invocation sends at most one mutating request, and sends
    it first.  It reports success exactly when the statement before
    the [try] did not throw, the action is one of the three known ones,
    the client accepted the request and the wait on the operation, if
    the operation can be waited on, was not rejected; an operation
    that cannot be waited on counts as done. *)
Theorem success_means_accepted (client : Client) (p : Params) :
  let out := manageFirewallRule client p in
  (length (List.filter is_mutation (snd out)) <= 1)%nat /\
  (forall c, c ∈ snd out -> is_mutation c = true -> head (snd out) = Some c) /\
  ((exists r, fst out = Returns r /\ status r = success) <->
   exists uri call op,
     networkUri p = inl uri /\
     request uri p = inl call /\ client call = Resolved op /\
     (promise op = None \/ promise op = Some (Resolved tt))).
Proof.
  cbv zeta. unfold manageFirewallRule, tryBlock.
  destruct (networkUri p) as [uri | thrown] eqn:Eu.
  2:{ cbn. split; [lia |]. split.
      - intros c Hc. inversion Hc.
      - split.
        + intros [r [H _]]. discriminate.
        + intros [uri [call [op [H _]]]]. discriminate. }
  destruct (request uri p) as [call | m] eqn:Er.
  - destruct (request_is_mutation uri p call Er) as [Hmut _].
    destruct (client call) as [op | m] eqn:Ec.
    + destruct (promise op) as [[[] | m] |] eqn:Ep; cbn [fst snd List.filter length];
        rewrite Hmut; cbn [length List.filter is_mutation].
      * split; [lia |]. split.
        -- intros c Hc Hm. apply elem_of_cons in Hc as [-> | Hc]; [reflexivity |].
           apply list_elem_of_singleton in Hc. subst c. discriminate.
        -- split; [| eauto]. intros _. exists uri, call, op. rewrite Ec, Ep. auto.
      * split; [lia |]. split.
        -- intros c Hc Hm. apply elem_of_cons in Hc as [-> | Hc]; [reflexivity |].
           apply list_elem_of_singleton in Hc. subst c. discriminate.
        -- split.
           ++ intros [r [[= <-] Hs]]. discriminate.
           ++ intros [uri' [call' [op' [[= <-] [Hr' [Hc' Hp]]]]]].
              rewrite Er in Hr'. injection Hr' as <-. rewrite Ec in Hc'.
              injection Hc' as <-. rewrite Ep in Hp. destruct Hp; discriminate.
      * split; [lia |]. split.
        -- intros c Hc Hm. apply list_elem_of_singleton in Hc. subst c. reflexivity.
        -- split; [| eauto]. intros _. exists uri, call, op. rewrite Ec, Ep. auto.
    + cbn [fst snd List.filter length]. rewrite Hmut. cbn [length].
      split; [lia |]. split.
      * intros c Hc Hm. apply list_elem_of_singleton in Hc. subst c. reflexivity.
      * split.
        -- intros [r [[= <-] Hs]]. discriminate.
        -- intros [uri' [call' [op' [[= <-] [Hr' [Hc' _]]]]]].
           rewrite Er in Hr'. injection Hr' as <-. rewrite Ec in Hc'. discriminate.
  - cbn. split; [lia |]. split.
    + intros c Hc. inversion Hc.
    + split.
      * intros [r [[= <-] Hs]]. discriminate.
      * intros [uri' [call' [op' [[= <-] [H _]]]]]. rewrite Er in H. discriminate.
Qed.

(** X17. A network given by its bare name is sent as a URI that the
    project-reference helper of the discovery tool reads back as the
    project of the rule: for a project identifier and a network name
    that are not empty and hold no slash, the create request carries
    [projects/<project>/global/networks/<name>], and
    [extractProjectFromUrl] of it is the project. *)
Theorem qualified_network_names_its_project (p : Params) (n : string) :
  network p = Some (JStr n) ->
  n <> EmptyString -> includes_char "/" n = false ->
  projectId p <> EmptyString -> includes_char "/" (projectId p) = false ->
  action p = "create" ->
  exists uri fr,
    networkUri p = inl uri /\
    request uri p = inl (Insert (projectId p) fr) /\
    fr_network fr = Some (JStr ("projects/" +:+ projectId p +:+ "/global/networks/" +:+ n)) /\
    UrlHelper.extractProjectFromUrl (as_string (fr_network fr)) = Some (projectId p).
Proof.
  intros Hn Hne Hns Hpe Hps Ha.
  assert (Huri : networkUri p
                 = inl (Some (JStr ("projects/" +:+ projectId p +:+ "/global/networks/" +:+ n)))).
  { unfold networkUri. rewrite Hn. cbn [truthy includes_slash to_text]. rewrite Hns.
    destruct (String.eqb n EmptyString) eqn:E; [apply String.eqb_eq in E; contradiction |].
    reflexivity. }
  eexists. unfold request. rewrite Ha. cbn [String.eqb Ascii.eqb Bool.eqb].
  eexists. split; [exact Huri |]. split; [reflexivity |]. cbn [fr_network as_string].
  split; [reflexivity |].
  unfold UrlHelper.extractProjectFromUrl, match_project. cbn [show].
  change ("projects/" +:+ projectId p +:+ "/global/networks/" +:+ n)
    with ("projects/" +:+ projectId p +:+ "/" +:+ "global/networks/" +:+ n).
  rewrite (PatternFacts.first_match_hit (projectId p) ("global/networks/" +:+ n) Hpe Hps).
  reflexivity.
Qed.

Lemma qualified_network_names_its_project_witness :
  exists uri fr,
    networkUri (Samples.ruleParams "create") = inl uri /\
    request uri (Samples.ruleParams "create") = inl (Insert "proj-a" fr) /\
    fr_network fr = Some (JStr ("projects/" +:+ "proj-a" +:+ "/global/networks/" +:+ "default")) /\
    UrlHelper.extractProjectFromUrl (as_string (fr_network fr)) = Some "proj-a".
Proof.
  apply (qualified_network_names_its_project (Samples.ruleParams "create") "default");
    first [reflexivity | discriminate].
Defined.

(** X23. The function throws exactly when the network is truthy and is
    neither a string nor an array.  In every other case it returns a
    result: an action other than create, update or delete gives an
    error-status result at once, with no request sent, and a rejection
    by the client, of the request itself or of the wait on the
    operation, gives an error-status result whose message ends with
    the message of the rejection. *)
Theorem errors_inside_try_become_results (client : Client) (p : Params) :
  let out := manageFirewallRule client p in
  ((exists m, fst out = Throws m)
   <-> exists n, network p = Some n /\ truthy n = true /\ has_includes n = false) /\
  (forall uri, networkUri p = inl uri ->
     (exists r, fst out = Returns r) /\
     (~ known_action (action p) ->
      snd out = [] /\
      fst out = Returns
        {| status := error;
           message := "Failed to " +:+ action p +:+ " firewall rule: Unknown action: " +:+ action p;
           details := None |}) /\
     (forall call m,
        request uri p = inl call ->
        client call = Rejected m
        \/ (exists op, client call = Resolved op /\ promise op = Some (Rejected m)) ->
        fst out = Returns
          {| status := error;
             message := "Failed to " +:+ action p +:+ " firewall rule: " +:+ m;
             details := None |})).
Proof.
  cbv zeta. split.
  - rewrite <- networkUri_throws. unfold manageFirewallRule.
    destruct (networkUri p) as [uri | thrown].
    + split; [| intros [m H]; discriminate].
      destruct (tryBlock client uri p) as [[r | m'] sent]; intros [m H]; discriminate.
    + split; eauto.
  - intros uri Hu. unfold manageFirewallRule, tryBlock. rewrite Hu. repeat split.
    + destruct (request uri p) as [call | m]; [| eauto].
      destruct (client call) as [op | m]; [| eauto].
      destruct (promise op) as [[[] | m] |]; eauto.
    + rewrite (request_unknown uri p H). reflexivity.
    + rewrite (request_unknown uri p H). reflexivity.
    + intros call m Hreq Hfail. rewrite Hreq.
      destruct Hfail as [-> | [op [-> ->]]]; reflexivity.
Qed.

Lemma errors_inside_try_become_results_witness :
  snd (manageFirewallRule Samples.permissionDenied (Samples.ruleParams "purge")) = []
  /\ fst (manageFirewallRule Samples.permissionDenied (Samples.ruleParams "create"))
     = Returns (catchBlock (Samples.ruleParams "create")
                  "Required 'compute.firewalls.create' permission").
Proof.
  destruct (errors_inside_try_become_results Samples.permissionDenied
              (Samples.ruleParams "purge")) as [_ Hpurge].
  destruct (errors_inside_try_become_results Samples.permissionDenied
              (Samples.ruleParams "create")) as [_ Hcreate].
  split.
  - apply (Hpurge (Some (JStr "projects/proj-a/global/networks/default")) eq_refl).
    unfold known_action. simpl. intros [H | [H | H]]; discriminate.
  - eapply (Hcreate (Some (JStr "projects/proj-a/global/networks/default")) eq_refl).
    + reflexivity.
    + left. reflexivity.
Defined.

End FirewallMore.

(** ** Topology inventory *)

Module ArchitectureFacts.
Import Js Architecture.

Lemma groupAll_groups (found : list Asset) (summary summary' : Summary) :
  groupAll found summary = inl summary' ->
  forall type,
    default [] (summary' !! type)
    = (default [] (summary !! type)
       ++ List.map toItem (List.filter (fun res => String.eqb (typeOf res) type) found))%list.
Proof.
  revert summary. induction found as [| res found IH]; intros summary; cbn [groupAll].
  - intros [= <-] type. cbn. rewrite app_nil_r. reflexivity.
  - unfold groupBody. destruct (bool_decide (typeOf res ∈ inheritedKeys)); [discriminate |].
    intros H type. rewrite (IH _ H type). cbn [List.filter].
    destruct (String.eqb (typeOf res) type) eqn:E.
    + apply String.eqb_eq in E. subst type. rewrite lookup_insert_eq. simpl.
      rewrite <- app_assoc. reflexivity.
    + apply String.eqb_neq in E. rewrite lookup_insert_ne by exact E. reflexivity.
Qed.

Lemma groupAll_keys (found : list Asset) (summary summary' : Summary) :
  groupAll found summary = inl summary' ->
  forall type,
    summary' !! type = None <->
    summary !! type = None /\ forall res, res ∈ found -> typeOf res <> type.
Proof.
  revert summary. induction found as [| res found IH]; intros summary; cbn [groupAll].
  - intros [= <-] type. split; [| tauto]. intros H. split; [exact H |].
    intros res Hres. inversion Hres.
  - unfold groupBody. destruct (bool_decide (typeOf res ∈ inheritedKeys)); [discriminate |].
    intros H type. rewrite (IH _ H type). split.
    + intros [Hl Hf]. destruct (decide (typeOf res = type)) as [<- | Hne].
      * rewrite lookup_insert_eq in Hl. discriminate.
      * rewrite lookup_insert_ne in Hl by exact Hne. split; [exact Hl |].
        intros r Hr. apply elem_of_cons in Hr as [-> | Hr]; auto.
    + intros [Hl Hf]. assert (Hne : typeOf res <> type) by (apply Hf; left).
      rewrite lookup_insert_ne by exact Hne. split; [exact Hl |].
      intros r Hr. apply Hf. right. exact Hr.
Qed.

Lemma groupAll_thrown (found : list Asset) (summary : Summary) :
  (exists m, groupAll found summary = inr m) <->
  exists res, res ∈ found /\ typeOf res ∈ inheritedKeys.
Proof.
  revert summary. induction found as [| res found IH]; intros summary; cbn [groupAll].
  - split; [intros [m H]; discriminate | intros [res [H _]]; inversion H].
  - unfold groupBody. destruct (bool_decide (typeOf res ∈ inheritedKeys)) eqn:E.
    + apply bool_decide_eq_true in E. split; [| eauto].
      intros _. exists res. split; [left | exact E].
    + apply bool_decide_eq_false in E. rewrite IH. split.
      * intros [r [Hr Hk]]. exists r. split; [right |]; assumption.
      * intros [r [Hr Hk]]. apply elem_of_cons in Hr as [-> | Hr]; [contradiction | eauto].
Qed.

(** X18. When the inventory tool returns, its summary is the list of
    resources found cut up by asset type, a missing type counting as
    [unknown]: the group of a type holds the entries of exactly the
    resources of that type, in the order found; a type has a group
    only if some resource has it; and the count returned is the number
    of resources found. *)
Theorem summary_groups_by_type
    (search : string -> list string -> Z -> Outcome (list Asset))
    (projectId : string) (r : Result) :
  describeNetworkArchitecture search projectId = Returns r ->
  exists found,
    search ("projects/" +:+ projectId) architectureAssetTypes 500 = Resolved found /\
    resourceCount r = length found /\
    (forall type,
       group r type
       = List.map toItem (List.filter (fun res => String.eqb (typeOf res) type) found)) /\
    (forall type,
       resources r !! type = None <-> forall res, res ∈ found -> typeOf res <> type).
Proof.
  unfold describeNetworkArchitecture.
  destruct (search _ _ _) as [found | m]; [| discriminate].
  destruct (groupAll found ∅) as [summary | m] eqn:E; [| discriminate].
  intros [= <-]. exists found. split; [reflexivity |]. split; [reflexivity |]. split.
  - intros type. unfold group. cbn [resources].
    rewrite (groupAll_groups found ∅ summary E type), lookup_empty. reflexivity.
  - intros type. cbn [resources]. rewrite (groupAll_keys found ∅ summary E type), lookup_empty.
    tauto.
Qed.

(** X19. Unlike the other tools, this one lets an error through to its
    caller.  It throws exactly when the search is rejected or some
    resource found has an asset type that names a member every object
    inherits (such as [constructor]), and the message thrown always
    begins with [Failed to list assets: ]. *)
Theorem inventory_throws (search : string -> list string -> Z -> Outcome (list Asset))
    (projectId : string) :
  let out := describeNetworkArchitecture search projectId in
  ((exists m, out = Throws m) <->
   (exists m, search ("projects/" +:+ projectId) architectureAssetTypes 500 = Rejected m) \/
   (exists found res,
      search ("projects/" +:+ projectId) architectureAssetTypes 500 = Resolved found /\
      res ∈ found /\ typeOf res ∈ inheritedKeys)) /\
  (forall m, out = Throws m -> exists cause, m = "Failed to list assets: " +:+ cause).
Proof.
  cbv zeta. unfold describeNetworkArchitecture.
  destruct (search _ _ _) as [found | m0].
  - pose proof (groupAll_thrown found ∅) as Hthrown.
    destruct (groupAll found ∅) as [summary | m1]; split.
    + split.
      * intros [m H]. discriminate.
      * intros [[m H] | [found' [res [[= <-] H]]]]; [discriminate |].
        destruct (proj2 Hthrown (ex_intro _ res H)) as [m Hm]. discriminate.
    + intros m H. discriminate.
    + split; [| eauto]. intros _. right.
      destruct (proj1 Hthrown (ex_intro _ m1 eq_refl)) as [res H]. eauto.
    + intros m [= <-]. eauto.
  - split.
    + split; [| eauto]. intros _. left. eauto.
    + intros m [= <-]. eauto.
Qed.

Lemma summary_groups_by_type_witness :
  exists r,
    describeNetworkArchitecture MoreSamples.threeAssets "proj-a" = Returns r /\
    resourceCount r = 3%nat.
Proof.
  eexists. split; [reflexivity |].
  destruct (summary_groups_by_type MoreSamples.threeAssets "proj-a" _ eq_refl)
    as [found [Hs [Hc _]]].
  injection Hs as <-. exact Hc.
Defined.

End ArchitectureFacts.

(** ** HTTP front end *)

Module ServerFacts.
Import Js Server.

(** X20. The [/query] handler calls the agent at most once, and only
    for a request it does not answer with 400: exactly when the prompt
    is not empty and a project can be resolved, the one of the body
    when it is not empty and that of the environment otherwise.  The
    status is 200 when the agent returns and 500, with the message of
    the error, when it fails. *)
Theorem query_validates_before_running {A : Type} (env : option string)
    (agent : string -> string -> Outcome A) (body : Body) :
  let out := query env agent body in
  let project := if truthy_str (projectId body) then projectId body else env in
  (status (fst out) = 400 <->
   truthy_str (prompt body) = false \/ truthy_str project = false) /\
  (snd out = [] <-> status (fst out) = 400) /\
  (status (fst out) <> 400 ->
   snd out = [(show (prompt body), show project)] /\
   ((exists result, agent (show (prompt body)) (show project) = Resolved result /\
                    fst out = {| status := 200; payload := ResultPayload result |}) \/
    (exists m, agent (show (prompt body)) (show project) = Rejected m /\
               fst out = {| status := 500; payload := ErrorPayload m |}))).
Proof.
  cbv zeta. unfold query, targetProjectId, or_else.
  set (project := if truthy_str (projectId body) then projectId body else env).
  destruct (truthy_str (prompt body)) eqn:Ep; cbn [negb].
  - destruct (truthy_str project) eqn:Et; cbn [negb].
    + destruct (agent (show (prompt body)) (show project)) as [result | m] eqn:Ea;
        cbn [fst snd status]; (split; [| split]).
      * split; [discriminate | intros [H | H]; discriminate].
      * split; discriminate.
      * intros _. split; [reflexivity |]. left. eauto.
      * split; [discriminate | intros [H | H]; discriminate].
      * split; discriminate.
      * intros _. split; [reflexivity |]. right. eauto.
    + cbn [fst snd status]. split; [| split].
      * split; auto.
      * split; reflexivity.
      * intros H. contradiction.
  - cbn [fst snd status]. split; [| split].
    + split; auto.
    + split; reflexivity.
    + intros H. contradiction.
Qed.

End ServerFacts.

(** ** Sessions over a conversation *)

Module SessionFacts.
Import Js Agent AgentFacts.

Lemma serve_lookup (root : LlmAgent) (store : Sessions) (r : Request) (t : N) :
  serve root store r !! sessionIdAt t
  = if decide (t = at_time r)
    then Some (sessionOf store (at_time r)
               ++ newMessage (prompt r) (project r) :: run root root (decisions r))%list
    else store !! sessionIdAt t.
Proof.
  unfold serve, runAgent. cbn [snd]. rewrite sessionOf_ensure.
  destruct (decide (t = at_time r)) as [-> | Hne].
  - rewrite lookup_insert_eq. reflexivity.
  - assert (Hid : sessionIdAt (at_time r) <> sessionIdAt t).
    { intros H. apply Hne. symmetry. apply sessionIdAt_inj. exact H. }
    rewrite lookup_insert_ne by exact Hid.
    unfold ensureSession. destruct (store !! sessionIdAt (at_time r)); [reflexivity |].
    rewrite lookup_insert_ne by exact Hid. reflexivity.
Qed.

Lemma foldl_serve_other (root : LlmAgent) (requests : list Request) (store : Sessions) (t : N) :
  t ∉ List.map at_time requests ->
  foldl (serve root) store requests !! sessionIdAt t = store !! sessionIdAt t.
Proof.
  revert store. induction requests as [| r requests IH]; intros store Ht; [reflexivity |].
  cbn [foldl]. rewrite IH.
  - rewrite serve_lookup. destruct (decide (t = at_time r)) as [-> | Hne]; [| reflexivity].
    exfalso. apply Ht. left.
  - intros H. apply Ht. right. exact H.
Qed.

(** X21. Over a whole conversation whose requests arrive at pairwise
    different clock values, the session that served a request holds,
    at the end, that request's message and the events of its run and
    nothing else: no turn of another request of the conversation is
    in it. *)
Theorem conversation_leaves_one_turn_per_session (root : LlmAgent) (requests : list Request)
    (r : Request) :
  NoDup (List.map at_time requests) ->
  r ∈ requests ->
  sessionOf (converse root requests) (at_time r)
  = newMessage (prompt r) (project r) :: run root root (decisions r).
Proof.
  unfold converse, sessionOf.
  assert (H : forall store,
             (forall q, q ∈ requests -> store !! sessionIdAt (at_time q) = None) ->
             NoDup (List.map at_time requests) -> r ∈ requests ->
             foldl (serve root) store requests !! sessionIdAt (at_time r)
             = Some (newMessage (prompt r) (project r) :: run root root (decisions r))).
  { induction requests as [| q requests IH]; intros store Hfree Hnd Hr; [inversion Hr |].
    cbn [List.map] in Hnd. apply NoDup_cons in Hnd as [Hq Hnd]. cbn [foldl].
    apply elem_of_cons in Hr as [-> | Hr].
    - rewrite foldl_serve_other by exact Hq. rewrite serve_lookup.
      destruct (decide (at_time q = at_time q)) as [_ | Hne]; [| contradiction].
      unfold sessionOf. rewrite (Hfree q) by left. reflexivity.
    - apply IH; [| exact Hnd | exact Hr].
      intros q' Hq'. rewrite serve_lookup.
      destruct (decide (at_time q' = at_time q)) as [Heq | Hne].
      + exfalso. apply Hq. rewrite <- Heq.
        apply list_elem_of_In, in_map, list_elem_of_In. exact Hq'.
      + apply Hfree. right. exact Hq'. }
  intros Hnd Hr. rewrite (H ∅); [reflexivity | | exact Hnd | exact Hr].
  intros q _. apply lookup_empty.
Qed.

Lemma conversation_leaves_one_turn_per_session_witness :
  sessionOf (converse Delegating.agent [Samples.diagnose; Samples.confirm])
            (at_time Samples.diagnose)
  = newMessage (prompt Samples.diagnose) (project Samples.diagnose)
    :: run Delegating.agent Delegating.agent (decisions Samples.diagnose).
Proof.
  apply (conversation_leaves_one_turn_per_session Delegating.agent
           [Samples.diagnose; Samples.confirm] Samples.diagnose).
  - apply NoDup_cons. split.
    + intros H. apply list_elem_of_singleton in H. discriminate.
    + apply NoDup_singleton.
  - left.
Defined.



End SessionFacts.
